(** * cli-task-manager: the task service and its schemas

  A shallow embedding of [src/service.py], [src/schemas.py],
  [src/constants.py] and [src/exceptions.py], and the properties of the
  record store proved over it.

  Conventions of the model.
  - A Python [str] is a [string]; its characters are the code points
    below 256, classified as Python classifies them ([\w], [\s],
    [str.lower]).  Text is processed as [list ascii].
  - A [dict] is a [gmap string _]; the file system is a [gmap] from paths
    to file contents.
  - Methods of [TaskService] are computations in a state and exception
    monad over the service object and the files.
  - The libraries the code calls are modelled by what they compute on the
    values the code passes them: [re] on the patterns of [find], [json]
    on the documents the store writes, the validators of [pydantic] on
    the fields of a task, and [uuid.uuid4] by the identifier it returns. *)

From Stdlib Require Import ZArith NArith Ascii String Bool List Lia.
From Stdlib Require Import Permutation Sorted.
From stdpp Require Import base option list strings gmap.

Local Open Scope N_scope.

(** * Characters and text *)

Module Text.

Definition code (c : ascii) : N := N_of_ascii c.

Definition between (lo hi n : N) : bool := (lo <=? n) && (n <=? hi).

(** [\s] of a [str] pattern, and the characters [str.strip] removes:
    tab to carriage return, the four separators 28..31, the space,
    NEL and the no-break space. *)
Definition is_space (c : ascii) : bool :=
  let n := code c in
  between 9 13 n || between 28 32 n || (n =? 133) || (n =? 160).

(** [\w] of a [str] pattern: the underscore and what [str.isalnum]
    accepts.  Below 128 these are the digits and the letters; from 128 on,
    the ordinal indicators (170, 186), the superscript digits (178, 179,
    185), the micro sign (181), the fractions (188 to 190) and the letters
    (192 to 255 without the signs 215 and 247). *)
Definition is_word (c : ascii) : bool :=
  let n := code c in
  between 48 57 n || between 65 90 n || (n =? 95) || between 97 122 n
  || (n =? 170) || between 178 179 n || (n =? 181) || between 185 186 n
  || between 188 190 n || between 192 214 n || between 216 246 n
  || between 248 255 n.

(** [str.lower] on one character: the capital letters [A] to [Z] and
    192 to 222 (without the sign 215) have a small letter 32 places on. *)
Definition lower_char (c : ascii) : ascii :=
  let n := code c in
  if between 65 90 n || between 192 214 n || between 216 222 n
  then ascii_of_N (n + 32) else c.

Definition lower (s : list ascii) : list ascii := map lower_char s.

(** [str.strip()] *)
Fixpoint lstrip (s : list ascii) : list ascii :=
  match s with
  | c :: rest => if is_space c then lstrip rest else s
  | [] => []
  end.

Definition strip (s : list ascii) : list ascii :=
  rev (lstrip (rev (lstrip s))).

(** [str.split(sep)] for a one-character separator: every occurrence
    splits, empty pieces are kept, and the empty text gives one empty
    piece. *)
Fixpoint split (sep : ascii) (s : list ascii) : list (list ascii) :=
  match s with
  | [] => [[]]
  | c :: rest =>
      if Ascii.eqb c sep then [] :: split sep rest
      else match split sep rest with
           | w :: ws => (c :: w) :: ws
           | [] => [[c]]
           end
  end.

Definition space : ascii := " "%char.

End Text.

(** * The regular expressions of [find] *)

Module Re.
Import Text.

(** [re.sub(r'[^\w\s]', '', s)]: every character that is neither a word
    character nor white space is deleted. *)
Definition sub_not_word_space (s : list ascii) : list ascii :=
  List.filter (fun c => is_word c || is_space c) s.

(** [re.sub(r' {2,}', ' ', s)]: every maximal run of two or more space
    characters becomes one space. *)
Fixpoint sub_spaces (s : list ascii) : list ascii :=
  match s with
  | c :: rest =>
      match rest with
      | d :: _ =>
          if Ascii.eqb c space && Ascii.eqb d space then sub_spaces rest
          else c :: sub_spaces rest
      | [] => [c]
      end
  | [] => []
  end.

(** The patterns [find] builds: alternatives of literal characters
    between word boundaries. *)
Inductive atom : Type :=
| WordBoundary
| Literal (c : ascii).

Definition alternative : Type := list atom.
Definition pattern : Type := list alternative.

(** [rf'\b{word}\b'] *)
Definition bounded_word (word : list ascii) : alternative :=
  WordBoundary :: map Literal word ++ [WordBoundary].

(** ['|'.join(rf'\b{word}\b' for word in keywords)] *)
Definition join_alternatives (keywords : list (list ascii)) : pattern :=
  map bounded_word keywords.

Definition word_at (c : option ascii) : bool :=
  match c with Some c => is_word c | None => false end.

(** [\b] between the character before the position and the one at it. *)
Definition boundary (prev next : option ascii) : bool :=
  xorb (word_at prev) (word_at next).

(** A literal under [re.IGNORECASE]. *)
Definition literal_eq (c d : ascii) : bool :=
  Ascii.eqb (lower_char c) (lower_char d).

(** Matching one alternative at a position: [prev] is the character
    before the position, [text] what follows. *)
Fixpoint match_here (p : alternative) (prev : option ascii)
    (text : list ascii) : bool :=
  match p with
  | [] => true
  | WordBoundary :: p' => boundary prev (head text) && match_here p' prev text
  | Literal c :: p' =>
      match text with
      | d :: text' => literal_eq c d && match_here p' (Some d) text'
      | [] => false
      end
  end.

Fixpoint search_from (p : pattern) (prev : option ascii)
    (text : list ascii) : bool :=
  existsb (fun alt => match_here alt prev text) p
  || match text with
     | d :: text' => search_from p (Some d) text'
     | [] => false
     end.

(** Whether [re.findall(p, text, re.IGNORECASE)] is a non-empty list:
    the pattern matches at some position of the text. *)
Definition findall_nonempty (p : pattern) (text : list ascii) : bool :=
  search_from p None text.

End Re.

(** * [src/constants.py] *)

Inductive TaskStatus : Type := completed | not_completed.
Inductive TaskPriority : Type := low | normal | high.
Inductive TaskCategory : Type := work | study | personal.

(** The members are [str] values: a member compares equal to its text. *)
Definition status_value (s : TaskStatus) : string :=
  match s with completed => "completed" | not_completed => "not_completed" end.

Definition priority_value (p : TaskPriority) : string :=
  match p with low => "low" | normal => "normal" | high => "high" end.

Definition category_value (c : TaskCategory) : string :=
  match c with work => "work" | study => "study" | personal => "personal" end.

Definition STATUS_SORT_ORDER (s : TaskStatus) : N :=
  match s with not_completed => 0 | completed => 1 end.

Definition PRIORITY_SORT_ORDER (p : TaskPriority) : N :=
  match p with high => 0 | normal => 1 | low => 2 end.

Definition CATEGORY_SORT_ORDER (c : TaskCategory) : N :=
  match c with work => 0 | study => 1 | personal => 2 end.

(** * Calendar dates ([datetime.date]) *)

Record date : Type := Date { year : N; month : N; day : N }.

Definition is_leap (y : N) : bool :=
  (y mod 4 =? 0) && (negb (y mod 100 =? 0) || (y mod 400 =? 0)).

Definition days_in_month (y m : N) : N :=
  match m with
  | 2 => if is_leap y then 29 else 28
  | 4 | 6 | 9 | 11 => 30
  | _ => 31
  end.

(** The dates [datetime.date] can hold: years 1 to 9999 of the proleptic
    Gregorian calendar. *)
Definition valid_date (d : date) : bool :=
  Text.between 1 9999 (year d) && Text.between 1 12 (month d)
  && Text.between 1 (days_in_month (year d) (month d)) (day d).

(** [d1 < d2] and [d1 == d2] on dates: by year, month, day. *)
Definition date_eqb (d1 d2 : date) : bool :=
  (year d1 =? year d2) && (month d1 =? month d2) && (day d1 =? day d2).

Definition date_ltb (d1 d2 : date) : bool :=
  if year d1 =? year d2 then
    if month d1 =? month d2 then day d1 <? day d2
    else month d1 <? month d2
  else year d1 <? year d2.

Definition digit (n : N) : ascii := ascii_of_N (48 + n mod 10).

(** ["%02d"] and ["%04d"] *)
Definition two_digits (n : N) : list ascii := [digit (n / 10); digit n].
Definition four_digits (n : N) : list ascii :=
  [digit (n / 1000); digit (n / 100); digit (n / 10); digit n].

Definition dash : ascii := "-"%char.

(** [str(d)], the ISO form [YYYY-MM-DD]. *)
Definition isoformat (d : date) : string :=
  string_of_list_ascii
    (four_digits (year d) ++ dash :: two_digits (month d)
       ++ dash :: two_digits (day d)).

Definition digit_value (c : ascii) : option N :=
  let n := Text.code c in
  if Text.between 48 57 n then Some (n - 48) else None.

Definition number (cs : list ascii) : option N :=
  foldl (fun acc c => a ← acc; v ← digit_value c; Some (10 * a + v))
        (Some 0) cs.

(** The validator of a [date] field on a text: the ISO form [YYYY-MM-DD]
    of a date that exists.  (The validator also reads a Unix timestamp or
    a datetime at midnight; the store writes neither, and they are not
    part of this model.) *)
Definition date_of_text (s : string) : option date :=
  match list_ascii_of_string s with
  | [y1; y2; y3; y4; s1; m1; m2; s2; d1; d2] =>
      if Ascii.eqb s1 dash && Ascii.eqb s2 dash then
        y ← number [y1; y2; y3; y4];
        m ← number [m1; m2];
        d ← number [d1; d2];
        let r := Date y m d in
        if valid_date r then Some r else None
      else None
  | _ => None
  end.

(** * [src/schemas.py] *)

Record TaskCreate : Type := {
  create_name : string;
  create_description : string;
  create_category : TaskCategory;
  create_deadline : date;
  create_priority : TaskPriority
}.

Record TaskRead : Type := {
  name : string;
  description : string;
  category : TaskCategory;
  deadline : date;
  priority : TaskPriority;
  id : string;
  status : TaskStatus
}.

(** Every field of [TaskUpdate] is optional and [None] by default. *)
Record TaskUpdate : Type := {
  update_name : option string;
  update_description : option string;
  update_category : option TaskCategory;
  update_deadline : option date;
  update_priority : option TaskPriority;
  update_status : option TaskStatus
}.

(** What a field of a dumped model or of a validated [dict] holds: text
    (an enum member is its text) or a date object. *)
Inductive value : Type :=
| VStr (s : string)
| VDate (d : date).

(** [str(v)] *)
Definition py_str (v : value) : string :=
  match v with VStr s => s | VDate d => isoformat d end.

(** [TaskRead.serialize_model], the [@model_serializer] of [TaskRead]:
    what [model_dump] returns for a [TaskRead]. *)
Definition serialize_model (t : TaskRead) : gmap string value :=
  list_to_map [
    ("id", VStr (id t));
    ("name", VStr (name t));
    ("description", VStr (description t));
    ("status", VStr (status_value (status t)));
    ("priority", VStr (priority_value (priority t)));
    ("category", VStr (category_value (category t)));
    ("deadline", VStr (py_str (VDate (deadline t))))
  ].

(** [TaskCreate.model_dump()] *)
Definition create_model_dump (data : TaskCreate) : gmap string value :=
  list_to_map [
    ("name", VStr (create_name data));
    ("description", VStr (create_description data));
    ("category", VStr (category_value (create_category data)));
    ("deadline", VDate (create_deadline data));
    ("priority", VStr (priority_value (create_priority data)))
  ].

(** [TaskUpdate.model_dump(exclude_none=True)]: the fields that are
    [None] are left out of the [dict]. *)
Definition update_model_dump (data : TaskUpdate) : gmap string value :=
  omap (fun v : option value => v)
    (list_to_map [
      ("name", VStr <$> update_name data);
      ("description", VStr <$> update_description data);
      ("category", VStr ∘ category_value <$> update_category data);
      ("deadline", VDate <$> update_deadline data);
      ("priority", VStr ∘ priority_value <$> update_priority data);
      ("status", VStr ∘ status_value <$> update_status data)
    ]).

(** [dict.update]: the keys of [new] overwrite those of [old]. *)
Definition dict_update (old new : gmap string value) : gmap string value :=
  new ∪ old.

(** Validation of one field. *)
Definition str_field (d : gmap string value) (k : string) : option string :=
  match d !! k with
  | Some (VStr s) => Some s
  | _ => None
  end.

Definition date_field (d : gmap string value) (k : string) : option date :=
  match d !! k with
  | Some (VDate x) => Some x
  | Some (VStr s) => date_of_text s
  | None => None
  end.

Definition status_of (s : string) : option TaskStatus :=
  if String.eqb s "completed" then Some completed
  else if String.eqb s "not_completed" then Some not_completed
  else None.

Definition priority_of (s : string) : option TaskPriority :=
  if String.eqb s "low" then Some low
  else if String.eqb s "normal" then Some normal
  else if String.eqb s "high" then Some high
  else None.

Definition category_of (s : string) : option TaskCategory :=
  if String.eqb s "work" then Some work
  else if String.eqb s "study" then Some study
  else if String.eqb s "personal" then Some personal
  else None.

(** [BaseTaskSchema.validate_author], the validator of [name]:
    [if not value.strip(): raise ValueError]. *)
Definition validate_author (value : string) : option string :=
  match Text.strip (list_ascii_of_string value) with
  | [] => None
  | _ :: _ => Some value
  end.

(** * [src/exceptions.py] and the other exceptions raised *)

(** An argument passed where the code expects a [str]: a [str], a
    [bytes], which has the method [lower] too, or an [int], which has
    not. *)
Inductive pyobj : Type :=
| PyStr (s : string)
| PyBytes (b : list Byte.byte)
| PyInt (z : Z).

Inductive exn : Type :=
| ValidationError
| JSONDecodeError
| TypeError
| AttributeError
| TaskDoesNotExists (task_id : pyobj).

Inductive outcome (A : Type) : Type :=
| Return (a : A)
| Raise (e : exn).
Arguments Return {A} a.
Arguments Raise {A} e.

(** [TaskRead.model_validate(d)], and the constructor of [TaskRead] called
    on the fields of [d]: every field is read from the [dict] and
    validated; a missing or ill-typed field, a text that is no member of
    the enum, a text that is no date, or a blank name raises
    [ValidationError].  The deadline texts of the model are those the
    store writes, [YYYY-MM-DD] of a date that exists (see
    [date_of_text]); the validator of the library answers other texts in
    its own way (it reads a datetime at midnight and a Unix timestamp as
    dates, and raises [ValueError] on the year 0000), and the properties
    below are about the texts the store writes. *)
Definition model_validate (d : gmap string value) : outcome TaskRead :=
  match
    n ← str_field d "name" ≫= validate_author;
    ds ← str_field d "description";
    c ← str_field d "category" ≫= category_of;
    dl ← date_field d "deadline";
    p ← str_field d "priority" ≫= priority_of;
    i ← str_field d "id";
    s ← str_field d "status" ≫= status_of;
    Some {| name := n; description := ds; category := c; deadline := dl;
            priority := p; id := i; status := s |}
  with
  | Some t => Return t
  | None => Raise ValidationError
  end.

Global Instance outcome_ret : MRet outcome := fun A a => Return a.
Global Instance outcome_bind : MBind outcome := fun A B k o =>
  match o with
  | Return a => k a
  | Raise e => Raise e
  end.

Global Instance TaskStatus_eq_dec : EqDecision TaskStatus.
Proof. solve_decision. Defined.
Global Instance TaskPriority_eq_dec : EqDecision TaskPriority.
Proof. solve_decision. Defined.
Global Instance TaskCategory_eq_dec : EqDecision TaskCategory.
Proof. solve_decision. Defined.
Global Instance date_eq_dec : EqDecision date.
Proof. solve_decision. Defined.
(** [==] on two [TaskRead]: all fields equal. *)
Global Instance TaskRead_eq_dec : EqDecision TaskRead.
Proof. solve_decision. Defined.

(** * Sorting: [sorted(l, key=key)] *)

(** Python's [sorted] is stable and compares keys with [<] only.  The
    model inserts each element, from the last to the first, before the
    first element whose key is not smaller. *)
Section Sorting.
Context {A K : Type} (key : A → K) (lt : K → K → bool).

Fixpoint insert_sorted (x : A) (l : list A) : list A :=
  match l with
  | [] => [x]
  | y :: l' => if lt (key y) (key x) then y :: insert_sorted x l' else x :: l
  end.

Definition sorted (l : list A) : list A := foldr insert_sorted [] l.

(** [a] may stand before [b]: the key of [b] is not smaller. *)
Definition key_le (a b : A) : Prop := lt (key b) (key a) = false.

End Sorting.

(** The tuple [_basic_sorting_key] returns. *)
Definition sort_key : Type := N * N * date * N * string.

(** [TaskService._basic_sorting_key] *)
Definition _basic_sorting_key (task : TaskRead) : sort_key :=
  (PRIORITY_SORT_ORDER (priority task),
   STATUS_SORT_ORDER (status task),
   deadline task,
   CATEGORY_SORT_ORDER (category task),
   name task).

(** [k1 < k2] on tuples: the first components that differ decide. *)
Definition tuple_ltb (k1 k2 : sort_key) : bool :=
  let '(p1, s1, d1, c1, n1) := k1 in
  let '(p2, s2, d2, c2, n2) := k2 in
  if negb (p1 =? p2) then p1 <? p2
  else if negb (s1 =? s2) then s1 <? s2
  else if negb (date_eqb d1 d2) then date_ltb d1 d2
  else if negb (c1 =? c2) then c1 <? c2
  else if negb (String.eqb n1 n2) then String.ltb n1 n2
  else false.

(** * [src/service.py] *)

(** What a file holds, as [json.load] reads it.  [json.dump] writes the
    text of a document and [json.load] reads that text back as the same
    document; the documents of the model are arrays of objects whose
    members are text, the shape the store writes.  A file of zero bytes,
    and any other text that is no JSON document, make [json.load] raise
    [JSONDecodeError]. *)
Inductive file : Type :=
| EmptyFile
| JsonFile (doc : list (gmap string string))
| MalformedFile.

Record TaskService : Type := {
  file_name : string;
  tasks : list TaskRead
}.

(** The state a method runs in: the service object and the files. *)
Record state : Type := {
  self : TaskService;
  files : gmap string file
}.

Definition M (A : Type) : Type := state → outcome A * state.

Global Instance M_ret : MRet M := fun A a st => (Return a, st).
Global Instance M_bind : MBind M := fun A B k m st =>
  match m st with
  | (Return a, st') => k a st'
  | (Raise e, st') => (Raise e, st')
  end.

Definition raise {A} (e : exn) : M A := fun st => (Raise e, st).
Definition lift {A} (o : outcome A) : M A := fun st => (o, st).
Definition get_tasks : M (list TaskRead) :=
  fun st => (Return (tasks (self st)), st).
Definition set_tasks (l : list TaskRead) : M unit :=
  fun st => (Return (),
             {| self := {| file_name := file_name (self st); tasks := l |};
                files := files st |}).
Definition write_file (content : file) : M unit :=
  fun st => (Return (),
             {| self := self st;
                files := <[file_name (self st) := content]> (files st) |}).

(** [TaskSchemaEncoder.default] on a model: the dumped model, its
    deadline replaced by [str] of itself. *)
Definition encoder_default (obj : TaskRead) : gmap string value :=
  alter (fun v => VStr (py_str v)) "deadline" (serialize_model obj).

(** The JSON text of an object returned by [default]: text members are
    JSON strings; a date is not serializable ([TypeError]). *)
Definition json_member (v : value) : option string :=
  match v with VStr s => Some s | VDate _ => None end.

Definition json_object (obj : gmap string value) : outcome (gmap string string) :=
  if decide (map_Forall (fun _ v => is_Some (json_member v)) obj)
  then Return (omap json_member obj)
  else Raise TypeError.

(** [TaskService.save_data]: the file is opened for writing, which
    empties it, and the whole list is dumped. *)
Definition save_data : M unit :=
  tasks ← get_tasks;
  match mapM (json_object ∘ encoder_default) tasks with
  | Return doc => write_file (JsonFile doc)
  | Raise e => write_file MalformedFile;; raise e
  end.

(** [TaskService._load_data] *)
Definition _load_data (file_name : string) (fs : gmap string file)
    : outcome (list TaskRead) :=
  match fs !! file_name with
  | Some EmptyFile | Some MalformedFile => Raise JSONDecodeError
  | Some (JsonFile doc) => mapM (fun task => model_validate (VStr <$> task)) doc
  | None => Return []
  end.

(** [TaskService.__init__] *)
Definition __init__ (file_name : string) (fs : gmap string file)
    : outcome TaskService :=
  tasks ← _load_data file_name fs;
  Return {| file_name := file_name; tasks := tasks |}.

Definition when_save (need_save : bool) : M unit :=
  if need_save then save_data else mret ().

(** [TaskService.add].  [uuid4] is the text of the fresh identifier that
    [str(uuid.uuid4())] returns in this call. *)
Definition add (data : TaskCreate) (need_save : bool) (uuid4 : string)
    : M TaskRead :=
  validated_task ← lift (model_validate
    (<["id" := VStr uuid4]>
       (<["status" := VStr (status_value not_completed)]>
          (create_model_dump data))));
  l ← get_tasks;
  set_tasks (l ++ [validated_task]);;
  when_save need_save;;
  mret validated_task.

(** [TaskService.get_all] *)
Definition get_all : M (list TaskRead) :=
  l ← get_tasks;
  mret (sorted _basic_sorting_key tuple_ltb l).

(** The keywords of a query: lines 98 to 102 of [find]. *)
Definition keywords (query : string) : list (list ascii) :=
  let query := Re.sub_not_word_space (list_ascii_of_string query) in
  let query := Re.sub_spaces query in
  let query := Text.strip query in
  Text.split Text.space query.

(** The body of the loop of [find]: is the task appended to [result]? *)
Definition found (p : Re.pattern) (task : TaskRead) : bool :=
  if Re.findall_nonempty p (list_ascii_of_string (name task)) then true
  else Re.findall_nonempty p (list_ascii_of_string (description task)).

(** [TaskService.find] *)
Definition find (query : string) : M (list TaskRead) :=
  let query := Re.join_alternatives (keywords query) in
  l ← get_tasks;
  let result := List.filter (found query) l in
  mret (sorted _basic_sorting_key tuple_ltb result).

(** [s.lower()] of a [str]. *)
Definition str_lower (s : string) : string :=
  string_of_list_ascii (Text.lower (list_ascii_of_string s)).

(** [b.lower()] of a [bytes]: the ASCII capital letters become small. *)
Definition byte_lower (b : Byte.byte) : Byte.byte :=
  let n := Byte.to_N b in
  if Text.between 65 90 n
  then match Byte.of_N (n + 32) with Some b' => b' | None => b end
  else b.

(** [task_id.lower()]: a [str] and a [bytes] have the method, an [int]
    has not. *)
Definition obj_lower (task_id : pyobj) : outcome pyobj :=
  match task_id with
  | PyStr s => Return (PyStr (str_lower s))
  | PyBytes b => Return (PyBytes (map byte_lower b))
  | PyInt _ => Raise AttributeError
  end.

(** [x == s] for a [str] [s]: only a [str] with the same characters is
    equal to it; a [bytes] never is. *)
Definition str_eq (x : pyobj) (s : string) : bool :=
  match x with
  | PyStr t => String.eqb t s
  | PyBytes _ | PyInt _ => false
  end.

Fixpoint get_by_id_loop (task_id : pyobj) (l : list TaskRead)
    : outcome (option TaskRead) :=
  match l with
  | [] => Return None
  | task :: rest =>
      lowered ← obj_lower task_id;
      if str_eq lowered (str_lower (id task)) then Return (Some task)
      else get_by_id_loop task_id rest
  end.

(** [TaskService.get_by_id] *)
Definition get_by_id (task_id : pyobj) : M (option TaskRead) :=
  l ← get_tasks;
  lift (get_by_id_loop task_id l).

(** [TaskService.get_by_category]; the argument is a member of the enum
    or, from the command line, any text. *)
Definition get_by_category (category_arg : string) : M (list TaskRead) :=
  l ← get_tasks;
  mret (List.filter
          (fun task => String.eqb category_arg (category_value (category task))) l).

(** [TaskService.get_by_status] *)
Definition get_by_status (status_arg : string) : M (list TaskRead) :=
  l ← get_tasks;
  mret (List.filter
          (fun task => String.eqb status_arg (status_value (status task))) l).

(** [TaskService.get_by_category_and_status] *)
Definition get_by_category_and_status (category_arg status_arg : string)
    : M (list TaskRead) :=
  l ← get_tasks;
  mret (List.filter
          (fun task =>
             String.eqb category_arg (category_value (category task))
             && String.eqb status_arg (status_value (status task))) l).

(** [list.remove(x)]: the first element equal to [x] goes; the model
    leaves a list without such an element as it is (the code only removes
    an element it has just found). *)
Fixpoint list_remove (x : TaskRead) (l : list TaskRead) : list TaskRead :=
  match l with
  | [] => []
  | y :: l' => if decide (y = x) then l' else y :: list_remove x l'
  end.

(** [TaskService.delete] *)
Definition delete (task_id : pyobj) (need_save : bool) : M unit :=
  task ← get_by_id task_id;
  match task with
  | None => raise (TaskDoesNotExists task_id)
  | Some task =>
      l ← get_tasks;
      set_tasks (list_remove task l);;
      when_save need_save
  end.

(** The loop of [update] from index [i] on, [rest] being the tasks from
    that index. *)
Fixpoint update_loop (task_id : pyobj) (data : TaskUpdate) (need_save : bool)
    (i : nat) (rest : list TaskRead) : M unit :=
  match rest with
  | [] => raise (TaskDoesNotExists task_id)
  | task :: rest' =>
      lowered ← lift (obj_lower task_id);
      if str_eq lowered (str_lower (id task)) then
        let task_data := serialize_model task in
        let new_data := update_model_dump data in
        let task_data := dict_update task_data new_data in
        validated ← lift (model_validate task_data);
        l ← get_tasks;
        set_tasks (<[i := validated]> l);;
        when_save need_save
      else update_loop task_id data need_save (S i) rest'
  end.

(** [TaskService.update] *)
Definition update (task_id : pyobj) (data : TaskUpdate) (need_save : bool)
    : M unit :=
  l ← get_tasks;
  update_loop task_id data need_save 0 l.

(** * The canonical order *)

(** A decidable strict total order, as [<] and [==] are on [int], [date]
    and [str]. *)
Class StrictTotal {K : Type} (eqb ltb : K → K → bool) : Prop := {
  eqb_eq : ∀ a b, eqb a b = true ↔ a = b;
  ltb_irrefl : ∀ a, ltb a a = false;
  ltb_trans : ∀ a b c, ltb a b = true → ltb b c = true → ltb a c = true;
  ltb_connex : ∀ a b, ltb a b = false → ltb b a = false → a = b
}.

(** The canonical order in the words of the specification. *)
Definition priority_before (p q : TaskPriority) : Prop :=
  match p, q with
  | high, normal | high, low | normal, low => True
  | _, _ => False
  end.

Definition status_before (s q : TaskStatus) : Prop :=
  match s, q with
  | not_completed, completed => True
  | _, _ => False
  end.

Definition category_before (c q : TaskCategory) : Prop :=
  match c, q with
  | work, study | work, personal | study, personal => True
  | _, _ => False
  end.

Definition date_before (d1 d2 : date) : Prop :=
  year d1 < year d2
  ∨ (year d1 = year d2
     ∧ (month d1 < month d2 ∨ (month d1 = month d2 ∧ day d1 < day d2))).

(** [s1] comes before [s2] in the lexicographic order of the code
    points. *)
Inductive text_before : list ascii → list ascii → Prop :=
| before_nil c s : text_before [] (c :: s)
| before_head c1 c2 s1 s2 :
    Text.code c1 < Text.code c2 → text_before (c1 :: s1) (c2 :: s2)
| before_tail c s1 s2 : text_before s1 s2 → text_before (c :: s1) (c :: s2).

Definition name_before (s1 s2 : string) : Prop :=
  text_before (list_ascii_of_string s1) (list_ascii_of_string s2).

(** Priority first, then status, deadline, category and name. *)
Definition canonical_before (a b : TaskRead) : Prop :=
  priority_before (priority a) (priority b)
  ∨ (priority a = priority b
     ∧ (status_before (status a) (status b)
        ∨ (status a = status b
           ∧ (date_before (deadline a) (deadline b)
              ∨ (deadline a = deadline b
                 ∧ (category_before (category a) (category b)
                    ∨ (category a = category b
                       ∧ name_before (name a) (name b)))))))).

(** Ascending: no record comes before an earlier one of the list. *)
Definition canonical_ascending (l : list TaskRead) : Prop :=
  StronglySorted (fun a b => ¬ canonical_before b a) l.

(** The records of [l] that have the sort key [k], in their order. *)
Definition with_key (k : sort_key) (l : list TaskRead) : list TaskRead :=
  List.filter (fun t => bool_decide (_basic_sorting_key t = k)) l.

(** Lexicographic comparison of pairs: the first components decide unless
    they are equal. *)
Definition lex_eqb {A B} (eqA : A → A → bool) (eqB : B → B → bool)
    (x y : A * B) : bool :=
  eqA x.1 y.1 && eqB x.2 y.2.

Definition lex_ltb {A B} (eqA ltA : A → A → bool) (ltB : B → B → bool)
    (x y : A * B) : bool :=
  if negb (eqA x.1 y.1) then ltA x.1 y.1 else ltB x.2 y.2.

(** The sort key with its components nested to the right. *)
Definition nested (k : sort_key) : N * (N * (date * (N * (string * unit)))) :=
  let '(p, s, d, c, n) := k in (p, (s, (d, (c, (n, tt))))).

Definition tuple_eqb (k1 k2 : sort_key) : bool :=
  lex_eqb N.eqb (lex_eqb N.eqb (lex_eqb date_eqb (lex_eqb N.eqb
    (lex_eqb String.eqb (fun _ _ : unit => true))))) (nested k1) (nested k2).

(** Two identifiers are the same up to the case of their letters. *)
Definition same_id (a b : string) : Prop := str_lower a = str_lower b.

Global Instance same_id_dec a b : Decision (same_id a b).
Proof. unfold same_id. apply _. Defined.

(** A sample record and a sample state, for the examples. *)
Definition sample_task (i n d : string) (dl : date) (p : TaskPriority) : TaskRead :=
  {| name := n; description := d; category := work; deadline := dl;
     priority := p; id := i; status := not_completed |}.

Definition store (l : list TaskRead) : state :=
  {| self := {| file_name := "tasks.json"; tasks := l |}; files := ∅ |}.

(** The JSON object [json.dump] writes for a record. *)
Definition json_of_task (t : TaskRead) : gmap string string :=
  list_to_map [
    ("id", id t);
    ("name", name t);
    ("description", description t);
    ("status", status_value (status t));
    ("priority", priority_value (priority t));
    ("category", category_value (category t));
    ("deadline", isoformat (deadline t))
  ].

(** The invariants of a [TaskRead] held by the store: it was validated
    when it was built, so its name is not blank, and its deadline is a
    [date]. *)
Definition valid_task (t : TaskRead) : Prop :=
  validate_author (name t) = Some (name t) ∧ valid_date (deadline t) = true.

(** The record a partial update leads to: the fields of the payload that
    are not [None] replace those of the record. *)
Definition overwrite (data : TaskUpdate) (t : TaskRead) : TaskRead :=
  {| name := default (name t) (update_name data);
     description := default (description t) (update_description data);
     category := default (category t) (update_category data);
     deadline := default (deadline t) (update_deadline data);
     priority := default (priority t) (update_priority data);
     id := id t;
     status := default (status t) (update_status data) |}.


(** The files after a call that saves, or does not. *)
Definition files_after (need_save : bool) (file_name : string)
    (l : list TaskRead) (fs : gmap string file) : gmap string file :=
  if need_save then <[file_name := JsonFile (json_of_task <$> l)]> fs else fs.

(** A payload whose name is given and blank. *)
Definition blank_name (data : TaskUpdate) : bool :=
  match update_name data with
  | Some n => bool_decide (validate_author n = None)
  | None => false
  end.

(** The state [update] leaves when it has replaced the record at its
    place by [t']. *)
Definition updated_state (st : state) (need_save : bool)
    (l : list TaskRead) : state :=
  {| self := {| file_name := file_name (self st); tasks := l |};
     files := files_after need_save (file_name (self st)) l (files st) |}.

(** * Whole-word occurrence, in the words of the specification *)

(** [kw] occurs in [text] as a whole word, the case of letters aside:
    the text is [pre ++ mid ++ post], [mid] is [kw] up to case, and there
    is a word boundary before and after [mid]. *)
Definition occurs_whole_word (kw text : list ascii) : Prop :=
  ∃ pre mid post,
    text = pre ++ mid ++ post
    ∧ Text.lower mid = Text.lower kw
    ∧ Re.boundary (last pre) (head (mid ++ post)) = true
    ∧ Re.boundary (last (pre ++ mid)) (head post) = true.

(** A keyword of the query hits the name or the description. *)
Definition keyword_hit (kws : list (list ascii)) (t : TaskRead) : Prop :=
  ∃ kw, kw ∈ kws
    ∧ (occurs_whole_word kw (list_ascii_of_string (name t))
       ∨ occurs_whole_word kw (list_ascii_of_string (description t))).

Definition has_word_char (s : string) : Prop :=
  Exists (fun c => Text.is_word c = true) (list_ascii_of_string s).

Global Instance has_word_char_dec s : Decision (has_word_char s).
Proof. unfold has_word_char. apply _. Defined.

(** The tokenization in the words of the specification, step by step.
    Punctuation is what is neither a word character nor white space. *)
Definition punctuation (c : ascii) : Prop :=
  Text.is_word c = false ∧ Text.is_space c = false.

Global Instance punctuation_dec c : Decision (punctuation c).
Proof. unfold punctuation. apply _. Defined.

Definition strip_punctuation (s : list ascii) : list ascii :=
  filter (fun c => ¬ punctuation c) s.

(** Every run of characters of the class [run] becomes a single space:
    the first character of a run is replaced by the space, and a
    character of the class that follows one of the class is dropped.
    [after_run] tells whether the character before was of the class. *)
Fixpoint collapse_runs (run : ascii → bool) (after_run : bool)
    (s : list ascii) : list ascii :=
  match s with
  | [] => []
  | c :: rest =>
      if run c then
        if after_run then collapse_runs run true rest
        else Text.space :: collapse_runs run true rest
      else c :: collapse_runs run false rest
  end.

(** Trimming: the white space a text begins with and the white space it
    ends with are cut off. *)
Fixpoint leading_white (s : list ascii) : nat :=
  match s with
  | c :: rest => if Text.is_space c then S (leading_white rest) else 0%nat
  | [] => 0%nat
  end.

Definition trim (s : list ascii) : list ascii :=
  let s := drop (leading_white s) s in
  take (length s - leading_white (rev s)) s.

(** Splitting at single spaces: [word] is the piece read so far. *)
Fixpoint pieces (word : list ascii) (s : list ascii) : list (list ascii) :=
  match s with
  | [] => [word]
  | c :: rest =>
      if decide (c = Text.space) then word :: pieces [] rest
      else pieces (word ++ [c]) rest
  end.

(** The keywords of a query when the runs of the class [run] are
    collapsed. *)
Definition tokens (run : ascii → bool) (query : string)
    : list (list ascii) :=
  pieces []
    (trim (collapse_runs run false
             (strip_punctuation (list_ascii_of_string query)))).

(** The runs [find] collapses are runs of the space character; the runs
    the specification names are runs of white space. *)
Definition is_the_space (c : ascii) : bool := Ascii.eqb c Text.space.

(** Every white space character of the text is the space. *)
Definition spaces_only (query : string) : Prop :=
  Forall (fun c => Text.is_space c = true → c = Text.space)
         (list_ascii_of_string query).

Definition tab : ascii := ascii_of_N 9.

(** The character before the position reached after reading [mid]. *)
Definition prev_after (prev : option ascii) (mid : list ascii) : option ascii :=
  match last mid with Some c => Some c | None => prev end.

(** The query [get<TAB>task]. *)
Definition get_tab_task : string :=
  string_of_list_ascii
    (list_ascii_of_string "get" ++ tab :: list_ascii_of_string "task").

(** The two records of the example of [find]. *)
Definition get_task_record : TaskRead :=
  {| name := "First"; description := "test get task"; category := work;
     deadline := Date 2025 1 1; priority := high; id := "a1";
     status := not_completed |}.

Definition update_task_record : TaskRead :=
  {| name := "Second"; description := "test update task"; category := work;
     deadline := Date 2025 1 1; priority := high; id := "b2";
     status := not_completed |}.

(** A character a keyword may hold: a word character or white space, and
    not the space.  None of them has a special meaning in a pattern. *)
Definition keyword_char (c : ascii) : Prop :=
  (Text.is_word c = true ∨ Text.is_space c = true) ∧ c ≠ Text.space.

(** The record [add] builds from a payload and a fresh id. *)
Definition created (data : TaskCreate) (uuid4 : string) : TaskRead :=
  {| name := create_name data;
     description := create_description data;
     category := create_category data;
     deadline := create_deadline data;
     priority := create_priority data;
     id := uuid4;
     status := not_completed |}.

(** * The collection of the test suite *)

Definition payload (n d : string) (c : TaskCategory) (dl : date)
    (p : TaskPriority) : TaskCreate :=
  {| create_name := n; create_description := d; create_category := c;
     create_deadline := dl; create_priority := p |}.

(** The payloads of [test_add], in their order. *)
Definition test_payloads : list TaskCreate := [
  payload "Task 1" "test task" work (Date 2024 12 21) high;
  payload "Task 2" "" work (Date 2024 12 22) high;
  payload "Task 3" "123" work (Date 2024 12 23) normal;
  payload "Task 8" "test task" study (Date 2024 12 22) normal;
  payload "Task 9" "test task" study (Date 2024 12 22) normal;
  payload "Task 10" "test task" study (Date 2024 12 23) high;
  payload "Task 11" "test task" study (Date 2024 12 25) low;
  payload "Task 12" "test task" personal (Date 2024 12 22) normal
].

(** Adding the payloads one after the other without saving, with the ids
    [ids]. *)
Fixpoint add_all (payloads : list TaskCreate) (ids : list string) : M unit :=
  match payloads, ids with
  | data :: payloads', uuid4 :: ids' =>
      add data false uuid4;; add_all payloads' ids'
  | _, _ => mret ()
  end.

Definition test_ids : list string :=
  ["id-1"; "id-2"; "id-3"; "id-8"; "id-9"; "id-10"; "id-11"; "id-12"].

(** The session of the test suite up to [test_find]: the eight records of
    [test_add], the record of [test_get_by_id], the record of
    [test_update] with its two updates, and the two updates of
    [test_get_by_category_and_status]. *)
Definition test_session : M unit :=
  add_all test_payloads test_ids;;
  add (payload "Test get task" "test get task" work (Date 2025 1 1) high)
    false "id-get";;
  add (payload "Test update task" "test update task" work (Date 2025 1 1) high)
    false "id-update";;
  update (PyStr "id-update")
    {| update_name := None; update_description := None;
       update_category := None; update_deadline := None;
       update_priority := None; update_status := Some completed |} false;;
  update (PyStr "id-update")
    {| update_name := Some "Updated name";
       update_description := Some "new description";
       update_category := None; update_deadline := Some (Date 2024 12 20);
       update_priority := None; update_status := None |} false;;
  update (PyStr "id-1")
    {| update_name := None; update_description := None;
       update_category := None; update_deadline := None;
       update_priority := None; update_status := Some completed |} false;;
  update (PyStr "id-12")
    {| update_name := None; update_description := None;
       update_category := None; update_deadline := None;
       update_priority := None; update_status := Some completed |} false.

Definition empty_store : state :=
  {| self := {| file_name := "test_tasks.json"; tasks := [] |}; files := ∅ |}.

(** The number of records a query returns, [0] when it raises. *)
Definition count {A} (m : M (list A)) (st : state) : nat :=
  match m st with
  | (Return l, _) => length l
  | (Raise _, _) => 0
  end.

(** * Further properties: definitions *)

(** The [dict] that [update] validates for the record [t]. *)
Definition update_dict (t : TaskRead) (data : TaskUpdate) : gmap string value :=
  dict_update (serialize_model t) (update_model_dump data).

(** The deadline a payload gives, if any, is a date that exists. *)
Definition valid_update (data : TaskUpdate) : Prop :=
  ∀ d, update_deadline data = Some d → valid_date d = true.

(** The lower-cased ids of a collection. *)
Definition lowered_ids (l : list TaskRead) : list string :=
  (fun t => str_lower (id t)) <$> l.

(** The keys [model_validate] reads: the fields of [TaskRead]. *)
Definition task_fields : list string :=
  ["name"; "description"; "category"; "deadline"; "priority"; "id"; "status"].

(** No two space characters stand side by side in [l]. *)
Definition no_double_space (l : list ascii) : Prop :=
  ∀ l1 l2, l ≠ l1 ++ Text.space :: Text.space :: l2.

(** The state with the file of the service replaced by [content]. *)
Definition with_file (st : state) (content : file) : state :=
  {| self := self st;
     files := <[file_name (self st) := content]> (files st) |}.

(** The payload of an [update] called without any field. *)
Definition no_fields : TaskUpdate :=
  {| update_name := None; update_description := None;
     update_category := None; update_deadline := None;
     update_priority := None; update_status := None |}.

(** A text that is one word: not empty, and word characters only. *)
Definition one_word (w : list ascii) : Prop :=
  w ≠ [] ∧ Forall (fun c => Text.is_word c = true) w.

(** * Running a method: unfolding the monad *)

Ltac run :=
  unfold mbind, M_bind, mret, M_ret, lift, raise, get_tasks, set_tasks,
    when_save; cbn [self tasks file_name files fst snd].

(** * Strict total orders *)

Section StrictTotalFacts.
Context {K : Type} (eqb ltb : K → K → bool) `{!StrictTotal eqb ltb}.

Lemma eqb_refl_true a : eqb a a = true.
Proof. by apply eqb_eq. Qed.

Lemma eqb_false_ne a b : eqb a b = false → a ≠ b.
Proof. intros E ->. by rewrite eqb_refl_true in E. Qed.

Lemma ltb_asym a b : ltb a b = true → ltb b a = false.
Proof.
  intros Hab. destruct (ltb b a) eqn:Hba; [|done].
  pose proof (ltb_trans _ _ _ Hab Hba) as H.
  by rewrite (ltb_irrefl (ltb := ltb)) in H.
Qed.

(** [not <] is transitive. *)
Lemma ltb_false_trans a b c :
  ltb a b = false → ltb b c = false → ltb a c = false.
Proof.
  intros Hab Hbc. destruct (ltb a c) eqn:Hac; [|done].
  destruct (ltb b a) eqn:Hba.
  - pose proof (ltb_trans _ _ _ Hba Hac) as H. congruence.
  - assert (a = b) as -> by by apply (ltb_connex (ltb := ltb)).
    by rewrite Hac in Hbc.
Qed.

End StrictTotalFacts.

Global Instance N_strict_total : StrictTotal N.eqb N.ltb.
Proof.
  split.
  - apply N.eqb_eq.
  - apply N.ltb_irrefl.
  - intros a b c. rewrite !N.ltb_lt. lia.
  - intros a b. rewrite !N.ltb_ge. lia.
Qed.

Global Instance unit_strict_total :
  StrictTotal (fun _ _ : unit => true) (fun _ _ : unit => false).
Proof. split; [by intros [] []|done|done|by intros [] []]. Qed.

Global Instance date_strict_total : StrictTotal date_eqb date_ltb.
Proof.
  split.
  - intros [y1 m1 d1] [y2 m2 d2]. unfold date_eqb. simpl.
    rewrite !andb_true_iff, !N.eqb_eq. split; [|naive_solver].
    by intros [[-> ->] ->].
  - intros [y m d]. unfold date_ltb. simpl.
    by rewrite !N.eqb_refl, N.ltb_irrefl.
  - intros [y1 m1 d1] [y2 m2 d2] [y3 m3 d3]. unfold date_ltb. simpl.
    repeat case_match;
      repeat match goal with
      | H : (_ =? _) = true |- _ => apply N.eqb_eq in H
      | H : (_ =? _) = false |- _ => apply N.eqb_neq in H
      end; rewrite !N.ltb_lt; lia.
  - intros [y1 m1 d1] [y2 m2 d2]. unfold date_ltb. simpl.
    repeat case_match;
      repeat match goal with
      | H : (_ =? _) = true |- _ => apply N.eqb_eq in H
      | H : (_ =? _) = false |- _ => apply N.eqb_neq in H
      end; rewrite !N.ltb_ge; intros; f_equal; lia.
Qed.

Lemma ascii_compare_lt c1 c2 :
  Ascii.compare c1 c2 = Lt ↔ Text.code c1 < Text.code c2.
Proof. unfold Ascii.compare, Text.code. apply N.compare_lt_iff. Qed.

Lemma ascii_compare_eq c1 c2 : Ascii.compare c1 c2 = Eq ↔ c1 = c2.
Proof.
  split; [apply Ascii.compare_eq_iff|].
  intros ->. unfold Ascii.compare. apply N.compare_refl.
Qed.

Lemma string_compare_lt s1 s2 :
  String.compare s1 s2 = Lt ↔ name_before s1 s2.
Proof.
  unfold name_before. revert s2.
  induction s1 as [|c1 s1 IH]; intros [|c2 s2]; simpl.
  - split; [done|]. inversion 1.
  - split; [constructor|done].
  - split; [done|]. inversion 1.
  - destruct (Ascii.compare c1 c2) eqn:Hc.
    + apply ascii_compare_eq in Hc as ->. rewrite IH. split.
      * by constructor.
      * inversion 1; subst; [lia|done].
    + split; [|done]. intros _. constructor. by apply ascii_compare_lt.
    + split; [done|]. inversion 1; subst.
      * apply ascii_compare_lt in H1. congruence.
      * assert (Ascii.compare c2 c2 = Eq) by by apply ascii_compare_eq.
        congruence.
Qed.

Lemma string_ltb_before s1 s2 : String.ltb s1 s2 = true ↔ name_before s1 s2.
Proof.
  rewrite <- string_compare_lt. unfold String.ltb.
  by destruct (String.compare s1 s2).
Qed.

Global Instance string_strict_total : StrictTotal String.eqb String.ltb.
Proof.
  assert (Hlt : ∀ a b, String.ltb a b = negb (String.leb b a)).
  { intros a b. unfold String.ltb, String.leb.
    rewrite (String.compare_antisym a b).
    by destruct (String.compare b a). }
  split.
  - apply String.eqb_eq.
  - intros a. rewrite Hlt. apply negb_false_iff, Is_true_true.
    change (String.le a a). reflexivity.
  - intros a b c. rewrite !Hlt, !negb_true_iff. intros Hab Hbc.
    destruct (String.leb c a) eqn:Hca; [|done].
    destruct (String.le_total c b) as [Hcb|Hbc'].
    + by apply Is_true_true in Hcb; rewrite Hcb in Hbc.
    + assert (String.le b a) as Hba; [|by apply Is_true_true in Hba; congruence].
      transitivity c; [done|]. by apply Is_true_true.
  - intros a b. rewrite !Hlt, !negb_false_iff. intros Hba Hab.
    by apply String.leb_antisym.
Qed.

Section Lex.
Context {A B : Type} (eqA ltA : A → A → bool) (eqB ltB : B → B → bool).
Context `{!StrictTotal eqA ltA, !StrictTotal eqB ltB}.

Global Instance lex_strict_total :
  StrictTotal (lex_eqb eqA eqB) (lex_ltb eqA ltA ltB).
Proof.
  split.
  - intros [a1 b1] [a2 b2]. unfold lex_eqb. simpl.
    rewrite andb_true_iff, (eqb_eq (eqb := eqA)), (eqb_eq (eqb := eqB)).
    split; [by intros [-> ->]|by intros [= -> ->]].
  - intros [a b]. unfold lex_ltb. simpl.
    by rewrite (eqb_refl_true eqA ltA), (ltb_irrefl (ltb := ltB)).
  - intros [a1 b1] [a2 b2] [a3 b3]. unfold lex_ltb. simpl.
    destruct (eqA a1 a2) eqn:E12; simpl.
    + apply (eqb_eq (eqb := eqA)) in E12 as ->.
      destruct (eqA a2 a3); simpl; [|done]. apply ltb_trans.
    + destruct (eqA a2 a3) eqn:E23; simpl.
      * apply (eqb_eq (eqb := eqA)) in E23 as ->. by rewrite E12.
      * intros H12 H23. pose proof (ltb_trans _ _ _ H12 H23) as H13.
        destruct (eqA a1 a3) eqn:E13; simpl; [|done].
        apply (eqb_eq (eqb := eqA)) in E13 as ->.
        by rewrite (ltb_irrefl (ltb := ltA)) in H13.
  - intros [a1 b1] [a2 b2]. unfold lex_ltb. simpl.
    destruct (eqA a1 a2) eqn:E12; simpl.
    + apply (eqb_eq (eqb := eqA)) in E12 as ->.
      rewrite (eqb_refl_true eqA ltA). simpl. intros ??. f_equal.
      by apply (ltb_connex (ltb := ltB)).
    + destruct (eqA a2 a1) eqn:E21; simpl.
      * apply (eqb_eq (eqb := eqA)) in E21 as ->.
        by rewrite (eqb_refl_true eqA ltA) in E12.
      * intros ??. apply (eqb_false_ne eqA ltA) in E12. destruct E12.
        by apply (ltb_connex (ltb := ltA)).
Qed.

End Lex.

(** * [sorted]: a stable sort *)

Section SortingFacts.
Context {A K : Type} `{!EqDecision K} (key : A → K) (eqb lt : K → K → bool).
Context `{!StrictTotal eqb lt}.

Lemma insert_sorted_perm x l : insert_sorted key lt x l ≡ₚ x :: l.
Proof.
  induction l as [|y l IH]; simpl; [done|].
  destruct (lt (key y) (key x)); [|done].
  rewrite IH. apply Permutation_swap.
Qed.

Lemma sorted_perm l : sorted key lt l ≡ₚ l.
Proof.
  induction l as [|x l IH]; simpl; [done|].
  by rewrite insert_sorted_perm, IH.
Qed.

Lemma insert_sorted_strongly x l :
  StronglySorted (key_le key lt) l → StronglySorted (key_le key lt) (insert_sorted key lt x l).
Proof.
  induction 1 as [|y l Hl IH Hy]; simpl.
  - repeat constructor.
  - destruct (lt (key y) (key x)) eqn:Hyx.
    + constructor; [done|].
      rewrite insert_sorted_perm. constructor; [|done].
      by apply (ltb_asym eqb lt).
    + constructor; [by constructor|].
      constructor; [done|].
      eapply Forall_impl; [exact Hy|]. intros z Hz.
      by apply (ltb_false_trans eqb lt _ (key y)).
Qed.

Lemma sorted_strongly l : StronglySorted (key_le key lt) (sorted key lt l).
Proof.
  induction l as [|x l IH]; simpl; [constructor|].
  by apply insert_sorted_strongly.
Qed.

(** The elements of one key keep their order. *)
Lemma insert_sorted_stable k x l :
  List.filter (fun a => bool_decide (key a = k)) (insert_sorted key lt x l)
  = List.filter (fun a => bool_decide (key a = k)) (x :: l).
Proof.
  induction l as [|y l IH]; [done|].
  cbn [insert_sorted]. destruct (lt (key y) (key x)) eqn:Hyx; [|done].
  cbn [List.filter] in *. rewrite IH.
  destruct (bool_decide_reflect (key y = k)) as [Hy|Hy]; [|done].
  destruct (bool_decide_reflect (key x = k)) as [Hx|Hx]; [|done].
  rewrite Hy, Hx in Hyx. by rewrite (ltb_irrefl (ltb := lt)) in Hyx.
Qed.

Lemma sorted_stable k l :
  List.filter (fun a => bool_decide (key a = k)) (sorted key lt l)
  = List.filter (fun a => bool_decide (key a = k)) l.
Proof.
  induction l as [|x l IH]; [done|].
  cbn [sorted foldr]. rewrite insert_sorted_stable.
  cbn [List.filter]. fold (sorted key lt l). by rewrite IH.
Qed.

End SortingFacts.

Lemma strict_total_via {K K' : Type} (f : K → K') (eqb ltb : K' → K' → bool)
    (eqb' ltb' : K → K → bool) :
  Inj (=) (=) f → StrictTotal eqb ltb →
  (∀ a b, eqb' a b = eqb (f a) (f b)) →
  (∀ a b, ltb' a b = ltb (f a) (f b)) →
  StrictTotal eqb' ltb'.
Proof.
  intros Hf Hst He Hl. split.
  - intros a b. rewrite He, (eqb_eq (eqb := eqb)). split; [apply Hf|by intros ->].
  - intros a. rewrite Hl. apply (ltb_irrefl (ltb := ltb)).
  - intros a b c. rewrite !Hl. apply ltb_trans.
  - intros a b. rewrite !Hl. intros ??. by apply Hf, (ltb_connex (ltb := ltb)).
Qed.

Global Instance nested_inj : Inj (=) (=) nested.
Proof. intros [[[[??]?]?]?] [[[[??]?]?]?]. unfold nested. by intros [= -> -> -> -> ->]. Qed.

(** The comparison of two sort keys is a strict total order. *)
Global Instance tuple_strict_total : StrictTotal tuple_eqb tuple_ltb.
Proof.
  eapply (strict_total_via nested); [apply _|apply _|done|].
  by intros [[[[??]?]?]?] [[[[??]?]?]?].
Qed.

(** * The canonical order *)

Lemma priority_rank_eq p q :
  (PRIORITY_SORT_ORDER p =? PRIORITY_SORT_ORDER q) = true ↔ p = q.
Proof. by destruct p, q. Qed.

Lemma priority_rank_lt p q :
  (PRIORITY_SORT_ORDER p <? PRIORITY_SORT_ORDER q) = true ↔ priority_before p q.
Proof. by destruct p, q. Qed.

Lemma status_rank_eq s q :
  (STATUS_SORT_ORDER s =? STATUS_SORT_ORDER q) = true ↔ s = q.
Proof. by destruct s, q. Qed.

Lemma status_rank_lt s q :
  (STATUS_SORT_ORDER s <? STATUS_SORT_ORDER q) = true ↔ status_before s q.
Proof. by destruct s, q. Qed.

Lemma category_rank_eq c q :
  (CATEGORY_SORT_ORDER c =? CATEGORY_SORT_ORDER q) = true ↔ c = q.
Proof. by destruct c, q. Qed.

Lemma category_rank_lt c q :
  (CATEGORY_SORT_ORDER c <? CATEGORY_SORT_ORDER q) = true ↔ category_before c q.
Proof. by destruct c, q. Qed.

Lemma date_ltb_before d1 d2 : date_ltb d1 d2 = true ↔ date_before d1 d2.
Proof.
  destruct d1 as [y1 m1 a1], d2 as [y2 m2 a2].
  unfold date_ltb, date_before. simpl.
  repeat case_match;
    repeat match goal with
    | H : (_ =? _) = true |- _ => apply N.eqb_eq in H
    | H : (_ =? _) = false |- _ => apply N.eqb_neq in H
    end; rewrite N.ltb_lt; lia.
Qed.

(** One step of a lexicographic comparison. *)
Lemma lex_step (e l r : bool) (E L R : Prop) :
  (e = true ↔ E) → (l = true ↔ L) → (r = true ↔ R) → (E → ¬ L) →
  (if negb e then l else r) = true ↔ L ∨ (E ∧ R).
Proof.
  destruct e; simpl; intros He Hl Hr HEL; rewrite ?Hl, ?Hr;
    intuition discriminate.
Qed.

(** The tuple comparison of the code is the five-part order of the
    specification. *)
Lemma tuple_ltb_canonical a b :
  tuple_ltb (_basic_sorting_key a) (_basic_sorting_key b) = true
  ↔ canonical_before a b.
Proof.
  unfold tuple_ltb, _basic_sorting_key, canonical_before.
  apply lex_step; [apply priority_rank_eq|apply priority_rank_lt| |].
  2: { intros ->. destruct (priority b); simpl; tauto. }
  apply lex_step; [apply status_rank_eq|apply status_rank_lt| |].
  2: { intros ->. destruct (status b); simpl; tauto. }
  apply lex_step; [apply (eqb_eq (eqb := date_eqb))|apply date_ltb_before| |].
  2: { intros ->. unfold date_before. lia. }
  apply lex_step; [apply category_rank_eq|apply category_rank_lt| |].
  2: { intros ->. destruct (category b); simpl; tauto. }
  destruct (String.eqb (name a) (name b)) eqn:E; simpl.
  - apply String.eqb_eq in E. rewrite E. split; [done|].
    by rewrite <- string_ltb_before, (ltb_irrefl (ltb := String.ltb)).
  - apply String.eqb_neq in E. rewrite string_ltb_before. tauto.
Qed.

Lemma StronglySorted_weaken {A} (R1 R2 : A → A → Prop) l :
  (∀ a b, R1 a b → R2 a b) → StronglySorted R1 l → StronglySorted R2 l.
Proof.
  intros HR. induction 1 as [|x l Hl IH Hx]; constructor; [done|].
  eapply Forall_impl; [exact Hx|]. intros y. apply HR.
Qed.

Lemma sorted_canonical_ascending l :
  canonical_ascending (sorted _basic_sorting_key tuple_ltb l).
Proof.
  unfold canonical_ascending.
  eapply StronglySorted_weaken; [|apply (sorted_strongly _ tuple_eqb tuple_ltb)].
  intros a b Hab Hba. apply tuple_ltb_canonical in Hba.
  unfold key_le in Hab. congruence.
Qed.

(** Two records have the same sort key exactly when the five fields of the
    key agree. *)
Lemma same_key_fields a b :
  _basic_sorting_key a = _basic_sorting_key b
  ↔ priority a = priority b ∧ status a = status b ∧ deadline a = deadline b
    ∧ category a = category b ∧ name a = name b.
Proof.
  unfold _basic_sorting_key. split.
  - intros [= Hp Hs Hd Hc Hn]. repeat split; try done.
    + by destruct (priority a), (priority b).
    + by destruct (status a), (status b).
    + by destruct (category a), (category b).
  - by intros (-> & -> & -> & -> & ->).
Qed.

(** C1. [get_all] returns, for every state, all the records of the
    collection (a permutation of it), ascending in the five-part order
    priority (high, normal, low), status (not completed, completed),
    deadline, category (work, study, personal), name; records with the
    same key keep their order (the sort is stable); the state is returned
    unchanged.  For the records created from three payloads A (high,
    2024-12-21), B (high, 2024-12-20) and C (low, 2024-12-01), whatever
    their other fields, the result is B, A, C. *)
Theorem get_all_canonical_order :
  (∀ st : state, ∃ l,
      get_all st = (Return l, st)
      ∧ l ≡ₚ tasks (self st)
      ∧ canonical_ascending l
      ∧ ∀ k, with_key k l = with_key k (tasks (self st)))
  ∧ (∀ (na da ia nb db ib nc dc ic f : string) (ca cb cc : TaskCategory) fs,
      let A := created (payload na da ca (Date 2024 12 21) high) ia in
      let B := created (payload nb db cb (Date 2024 12 20) high) ib in
      let C := created (payload nc dc cc (Date 2024 12 1) low) ic in
      let st := {| self := {| file_name := f; tasks := [A; B; C] |};
                   files := fs |} in
      get_all st = (Return [B; A; C], st)).
Proof.
  split.
  - intros st. exists (sorted _basic_sorting_key tuple_ltb (tasks (self st))).
    split; [done|]. split; [|split].
    + apply sorted_perm.
    + apply sorted_canonical_ascending.
    + intros k. apply (sorted_stable _ tuple_eqb tuple_ltb).
  - intros. subst A B C st. unfold get_all. run. do 2 f_equal.
Qed.

(** * Lists *)

Lemma List_filter_prop {A} (f : A → bool) (P : A → Prop)
    `{!∀ x, Decision (P x)} l :
  (∀ x, f x = true ↔ P x) → List.filter f l = filter P l.
Proof.
  intros Hf. induction l as [|x l IH]; [done|].
  rewrite filter_cons. simpl. rewrite IH.
  destruct (decide (P x)) as [HP|HP].
  - apply Hf in HP. by rewrite HP.
  - destruct (f x) eqn:Hx; [|done]. by apply Hf in Hx.
Qed.

Lemma same_id_eqb a b :
  String.eqb (str_lower a) (str_lower b) = true ↔ same_id a b.
Proof. apply String.eqb_eq. Qed.

(** * [get_by_id] *)

Lemma get_by_id_loop_text s l :
  ∃ r, get_by_id_loop (PyStr s) l = Return r
    ∧ match r with
      | Some t => ∃ pre post, l = pre ++ t :: post ∧ same_id s (id t)
                    ∧ Forall (fun u => ¬ same_id s (id u)) pre
      | None => Forall (fun u => ¬ same_id s (id u)) l
      end.
Proof.
  induction l as [|t l (r & Hr & IH)]; simpl.
  - by exists None.
  - unfold mbind, outcome_bind. simpl.
    destruct (String.eqb (str_lower s) (str_lower (id t))) eqn:E.
    + exists (Some t). split; [done|]. exists [], l.
      by apply same_id_eqb in E.
    + assert (¬ same_id s (id t)) as Hne.
      { rewrite <- same_id_eqb. congruence. }
      exists r. split; [done|]. destruct r as [u|].
      * destruct IH as (pre & post & -> & Hu & Hpre).
        exists (t :: pre), post. by repeat constructor.
      * by constructor.
Qed.

Lemma get_by_id_loop_bytes b l : get_by_id_loop (PyBytes b) l = Return None.
Proof. induction l as [|t l IH]; [done|]. simpl. exact IH. Qed.

(** C8.  For a text identifier [get_by_id] never raises: it returns the
    first record whose id equals the input up to case, or [None] when no
    record does, and leaves the state as it is.  An input that is no text
    is not always refused.  For an [int] the error, [AttributeError],
    comes from lower-casing the input for the first comparison: it is
    raised when the collection has a record, and on an empty collection
    the answer is [None], as for an id that is missing.  A [bytes] has
    the method [lower] and is equal to no [str]: the answer is [None] on
    every collection, also when the collection has a record with the
    same characters as id. *)
Theorem get_by_id_first_match (st : state) :
  (∀ s : string, ∃ r,
      get_by_id (PyStr s) st = (Return r, st)
      ∧ match r with
        | Some t => ∃ pre post,
            tasks (self st) = pre ++ t :: post
            ∧ same_id s (id t)
            ∧ Forall (fun u => ¬ same_id s (id u)) pre
        | None => Forall (fun u => ¬ same_id s (id u)) (tasks (self st))
        end)
  ∧ (∀ z : Z,
      get_by_id (PyInt z) st
      = (match tasks (self st) with
         | [] => Return None
         | _ :: _ => Raise AttributeError
         end, st))
  ∧ (∀ b : list Byte.byte, get_by_id (PyBytes b) st = (Return None, st))
  ∧ get_by_id (PyInt 1) empty_store = (Return None, empty_store)
  ∧ get_by_id (PyBytes [Byte.x61; Byte.x31])
      (store [sample_task "a1" "Task 1" "test task" (Date 2024 12 21) high])
    = (Return None,
       store [sample_task "a1" "Task 1" "test task" (Date 2024 12 21) high]).
Proof.
  split; [|split; [|split; [|split]]].
  - intros s. destruct (get_by_id_loop_text s (tasks (self st))) as (r & Hr & H).
    exists r. split; [|done]. unfold get_by_id. run. by rewrite Hr.
  - intros z. unfold get_by_id. run. by destruct (tasks (self st)).
  - intros b. unfold get_by_id. run. by rewrite get_by_id_loop_bytes.
  - reflexivity.
  - reflexivity.
Qed.

(** * [update] and [delete] on an unknown id *)

Lemma update_loop_skip task_id data need_save pre rest i st :
  Forall (fun t => ¬ same_id task_id (id t)) pre →
  update_loop (PyStr task_id) data need_save i (pre ++ rest) st
  = update_loop (PyStr task_id) data need_save (i + length pre) rest st.
Proof.
  intros Hpre. revert i. induction Hpre as [|t pre Ht _ IH]; intros i.
  - simpl. by rewrite Nat.add_0_r.
  - cbn [app update_loop length]. run. cbn [obj_lower str_eq].
    destruct (String.eqb (str_lower task_id) (str_lower (id t))) eqn:E.
    + by apply same_id_eqb in E.
    + rewrite IH. f_equal. lia.
Qed.

Lemma get_by_id_loop_absent task_id l :
  Forall (fun t => ¬ same_id task_id (id t)) l →
  get_by_id_loop (PyStr task_id) l = Return None.
Proof.
  induction 1 as [|t l Ht _ IH]; [done|]. simpl.
  unfold mbind, outcome_bind.
  destruct (String.eqb (str_lower task_id) (str_lower (id t))) eqn:E; [|done].
  by apply same_id_eqb in E.
Qed.

(** C7. When no record of the collection has the given id (up to case),
    [update] and [delete] raise [TaskDoesNotExists] carrying the id, and
    the state after the call is the state before it: the collection and
    the files are untouched. *)
Theorem update_delete_unknown_id (st : state) (task_id : string)
    (data : TaskUpdate) (need_save : bool) :
  Forall (fun t => ¬ same_id task_id (id t)) (tasks (self st)) →
  update (PyStr task_id) data need_save st
  = (Raise (TaskDoesNotExists (PyStr task_id)), st)
  ∧ delete (PyStr task_id) need_save st
    = (Raise (TaskDoesNotExists (PyStr task_id)), st).
Proof.
  intros Habs. split.
  - unfold update. run.
    rewrite <- (app_nil_r (tasks (self st))), update_loop_skip by done.
    done.
  - unfold delete, get_by_id. run. by rewrite get_by_id_loop_absent.
Qed.

Lemma update_delete_unknown_id_witness :
  let st := store [sample_task "a1" "Task 1" "test task" (Date 2024 12 21) high] in
  let data := {| update_name := None; update_description := None;
                 update_category := None; update_deadline := None;
                 update_priority := None; update_status := Some completed |} in
  update (PyStr "1") data true st = (Raise (TaskDoesNotExists (PyStr "1")), st)
  ∧ delete (PyStr "1") true st = (Raise (TaskDoesNotExists (PyStr "1")), st).
Proof.
  intros st data. apply (update_delete_unknown_id st "1" data true).
  repeat constructor. vm_compute. discriminate.
Defined.

(** * The filters *)

Lemma category_value_inj c1 c2 : category_value c1 = category_value c2 → c1 = c2.
Proof. by destruct c1, c2. Qed.

Lemma status_value_inj s1 s2 : status_value s1 = status_value s2 → s1 = s2.
Proof. by destruct s1, s2. Qed.

Lemma priority_value_inj p1 p2 : priority_value p1 = priority_value p2 → p1 = p2.
Proof. by destruct p1, p2. Qed.

(** C9. The three filters return exactly the records whose category,
    whose status, or whose category and status equal the argument (a
    member of the enum, or any text): the matching records of the
    collection, each as often as it is there and in the order of the
    collection (a sublist of it).  The state is left as it is.  The result
    is not put in the canonical order: there is a collection whose
    filtered records come back in an order [get_all] would not give. *)
Theorem filters_keep_collection_order :
  (∀ (st : state) (category_arg status_arg : string),
      let l := tasks (self st) in
      let by_category :=
        filter (fun t => category_value (category t) = category_arg) l in
      let by_status :=
        filter (fun t => status_value (status t) = status_arg) l in
      let by_both :=
        filter (fun t => category_value (category t) = category_arg
                         ∧ status_value (status t) = status_arg) l in
      get_by_category category_arg st = (Return by_category, st)
      ∧ get_by_status status_arg st = (Return by_status, st)
      ∧ get_by_category_and_status category_arg status_arg st
        = (Return by_both, st)
      ∧ by_category `sublist_of` l
      ∧ by_status `sublist_of` l
      ∧ by_both `sublist_of` l)
  ∧ (∀ (c : TaskCategory) (s : TaskStatus) (t : TaskRead),
      (category_value (category t) = category_value c ↔ category t = c)
      ∧ (status_value (status t) = status_value s ↔ status t = s))
  ∧ (∃ (st : state) (c : TaskCategory) l,
      get_by_category (category_value c) st = (Return l, st)
      ∧ sorted _basic_sorting_key tuple_ltb l ≠ l).
Proof.
  split; [|split].
  - intros st c s l by_category by_status by_both.
    repeat split; try apply sublist_filter.
    + unfold get_by_category. run. do 2 f_equal. apply List_filter_prop.
      intros t. rewrite String.eqb_eq. split; congruence.
    + unfold get_by_status. run. do 2 f_equal. apply List_filter_prop.
      intros t. rewrite String.eqb_eq. split; congruence.
    + unfold get_by_category_and_status. run. do 2 f_equal.
      apply List_filter_prop.
      intros t. rewrite andb_true_iff, !String.eqb_eq.
      split; intros [??]; split; congruence.
  - intros c s t. split; (split; [|congruence]).
    + apply category_value_inj.
    + apply status_value_inj.
  - exists (store [sample_task "a1" "Task 1" "" (Date 2024 12 21) low;
                   sample_task "a2" "Task 2" "" (Date 2024 12 20) high]), work.
    eexists. split; [reflexivity|]. vm_compute. discriminate.
Qed.

(** * Dates and their text *)

Lemma digit_value_digit n : digit_value (digit n) = Some (n mod 10).
Proof.
  unfold digit, digit_value, Text.code.
  assert (n mod 10 < 10) as Hr by (apply N.mod_lt; lia).
  revert Hr. generalize (n mod 10). intros r Hr.
  rewrite N_ascii_embedding by lia.
  unfold Text.between.
  replace (48 <=? 48 + r) with true by (symmetry; apply N.leb_le; lia).
  replace (48 + r <=? 57) with true by (symmetry; apply N.leb_le; lia).
  simpl. f_equal. lia.
Qed.

Lemma number_two_digits n : n < 100 → number (two_digits n) = Some n.
Proof.
  intros Hn. unfold number, two_digits. cbn [foldl].
  rewrite !digit_value_digit. simpl. f_equal.
  zify. Z.to_euclidean_division_equations. lia.
Qed.

Lemma number_four_digits n : n < 10000 → number (four_digits n) = Some n.
Proof.
  intros Hn. unfold number, four_digits. cbn [foldl].
  rewrite !digit_value_digit. simpl. f_equal.
  zify. Z.to_euclidean_division_equations. lia.
Qed.

Lemma days_in_month_le y m : days_in_month y m ≤ 31.
Proof.
  unfold days_in_month.
  repeat (case_match; try lia).
Qed.

(** Reading the ISO text of a date gives the date back. *)
Lemma date_of_text_isoformat d :
  valid_date d = true → date_of_text (isoformat d) = Some d.
Proof.
  intros Hd. pose proof Hd as Hv. destruct d as [y m a].
  unfold valid_date, Text.between in Hd. cbn [year month day] in Hd.
  rewrite !andb_true_iff, !N.leb_le in Hd.
  pose proof (days_in_month_le y m).
  unfold date_of_text, isoformat.
  rewrite list_ascii_of_string_of_list_ascii.
  cbn [year month day four_digits two_digits app].
  change (Ascii.eqb dash dash) with true. cbn [andb].
  fold (four_digits y) (two_digits m) (two_digits a).
  rewrite number_four_digits, number_two_digits, number_two_digits by lia.
  simpl. by rewrite Hv.
Qed.

(** * Dumping and validating records *)

Lemma status_of_value s : status_of (status_value s) = Some s.
Proof. by destruct s. Qed.

Lemma priority_of_value p : priority_of (priority_value p) = Some p.
Proof. by destruct p. Qed.

Lemma category_of_value c : category_of (category_value c) = Some c.
Proof. by destruct c. Qed.

(** [model_validate] on a [dict] whose seven fields are known. *)
Lemma model_validate_fields (d : gmap string value) t :
  str_field d "name" = Some (name t) →
  validate_author (name t) = Some (name t) →
  str_field d "description" = Some (description t) →
  str_field d "category" = Some (category_value (category t)) →
  date_field d "deadline" = Some (deadline t) →
  str_field d "priority" = Some (priority_value (priority t)) →
  str_field d "id" = Some (id t) →
  str_field d "status" = Some (status_value (status t)) →
  model_validate d = Return t.
Proof.
  intros Hn Hv Hd Hc Hdl Hp Hi Hs. unfold model_validate.
  rewrite Hn, Hd, Hc, Hdl, Hp, Hi, Hs. simpl. rewrite Hv. simpl.
  rewrite category_of_value, priority_of_value, status_of_value. simpl.
  by destruct t.
Qed.

Lemma json_object_default t :
  json_object (encoder_default t) = Return (json_of_task t).
Proof. reflexivity. Qed.

Lemma model_validate_json t :
  valid_task t → model_validate (VStr <$> json_of_task t) = Return t.
Proof.
  intros [Hn Hd]. apply model_validate_fields; try done.
  change (date_of_text (isoformat (deadline t)) = Some (deadline t)).
  by apply date_of_text_isoformat.
Qed.

Lemma dump_all l :
  mapM (json_object ∘ encoder_default) l = Return (json_of_task <$> l).
Proof.
  induction l as [|t l IH]; [done|].
  cbn [mapM fmap list_fmap]. unfold compose in *.
  rewrite json_object_default. cbn [mbind outcome_bind].
  by rewrite IH.
Qed.

Lemma validate_all l :
  Forall valid_task l →
  mapM (fun task => model_validate (VStr <$> task)) (json_of_task <$> l)
  = Return l.
Proof.
  induction 1 as [|t l Ht _ IH]; [done|].
  cbn [mapM fmap list_fmap]. rewrite model_validate_json by done.
  cbn [mbind outcome_bind]. by rewrite IH.
Qed.

Lemma save_data_run st :
  save_data st
  = (Return (),
     {| self := self st;
        files := files_after true (file_name (self st)) (tasks (self st))
                   (files st) |}).
Proof. unfold save_data. run. by rewrite dump_all. Qed.

Lemma when_save_run need_save st :
  when_save need_save st
  = (Return (),
     {| self := self st;
        files := files_after need_save (file_name (self st))
                   (tasks (self st)) (files st) |}).
Proof.
  destruct need_save; [apply save_data_run|]. by destruct st.
Qed.

(** * Persistence *)

(** C3. For a collection of valid records, [save_data] succeeds and
    changes nothing in the service, and a service built afterwards on the
    same path holds the very same collection: the same records, with every
    field and the id as before, in the same order. *)
Theorem save_then_load_roundtrip (st : state) :
  Forall valid_task (tasks (self st)) →
  ∃ st', save_data st = (Return (), st')
       ∧ self st' = self st
       ∧ __init__ (file_name (self st)) (files st') = Return (self st).
Proof.
  intros Hvalid. eexists. split; [apply save_data_run|]. split; [done|].
  unfold __init__, _load_data, files_after. cbn [files].
  rewrite lookup_insert_eq, validate_all by done.
  cbn [mbind outcome_bind]. by destruct (self st).
Qed.

Lemma save_then_load_roundtrip_witness :
  let st := store [sample_task "a1" "Task 1" "test task" (Date 2024 12 21) high;
                   sample_task "b2" "Task 2" "" (Date 2024 2 29) low] in
  ∃ st', save_data st = (Return (), st')
       ∧ self st' = self st
       ∧ __init__ (file_name (self st)) (files st') = Return (self st).
Proof.
  intros st. apply (save_then_load_roundtrip st).
  repeat constructor.
Defined.

(** C6, evaluated on the code.  On a path that does not exist the
    constructor gives a service with an empty collection; on a file that
    exists and is empty it raises [JSONDecodeError], where the claim and the
    docstring of [_load_data] promise an empty collection. *)
Theorem init_missing_and_empty_file (path : string) (fs : gmap string file) :
  __init__ path (base.delete path fs) = Return {| file_name := path; tasks := [] |}
  ∧ __init__ path (<[path := EmptyFile]> fs) = Raise JSONDecodeError.
Proof.
  unfold __init__, _load_data. by rewrite lookup_delete_eq, lookup_insert_eq.
Qed.

(** * [update] *)

(** The [dict] that [update] validates. *)
Lemma updated_fields t data :
  let d := dict_update (serialize_model t) (update_model_dump data) in
  str_field d "name" = Some (default (name t) (update_name data))
  ∧ str_field d "description"
    = Some (default (description t) (update_description data))
  ∧ str_field d "category"
    = Some (category_value (default (category t) (update_category data)))
  ∧ d !! "deadline"
    = Some (from_option VDate (VStr (isoformat (deadline t)))
              (update_deadline data))
  ∧ str_field d "priority"
    = Some (priority_value (default (priority t) (update_priority data)))
  ∧ str_field d "id" = Some (id t)
  ∧ str_field d "status"
    = Some (status_value (default (status t) (update_status data))).
Proof.
  destruct data as [[n|] [ds|] [c|] [dl|] [p|] [s|]]; repeat split; reflexivity.
Qed.

Lemma model_validate_updated t data :
  valid_task t →
  validate_author (default (name t) (update_name data))
  = Some (default (name t) (update_name data)) →
  model_validate (dict_update (serialize_model t) (update_model_dump data))
  = Return (overwrite data t).
Proof.
  intros [_ Hdate] Hname.
  destruct (updated_fields t data) as (Hn & Hd & Hc & Hdl & Hp & Hi & Hs).
  apply model_validate_fields; try done.
  unfold date_field. rewrite Hdl. cbn [overwrite deadline].
  destruct (update_deadline data) as [dl|]; [done|]. simpl.
  by apply date_of_text_isoformat.
Qed.

Lemma model_validate_blank t data :
  blank_name data = true →
  model_validate (dict_update (serialize_model t) (update_model_dump data))
  = Raise ValidationError.
Proof.
  unfold blank_name. intros Hblank.
  destruct (updated_fields t data) as (Hname & _).
  unfold model_validate. rewrite Hname.
  destruct (update_name data) as [n|]; [|done].
  apply bool_decide_eq_true in Hblank. simpl. by rewrite Hblank.
Qed.

Lemma validate_author_cases n :
  validate_author n = None ∨ validate_author n = Some n.
Proof. unfold validate_author. destruct (Text.strip _); auto. Qed.

Lemma insert_middle {A} (pre post : list A) x y :
  <[length pre := y]> (pre ++ x :: post) = pre ++ y :: post.
Proof.
  rewrite insert_app_r_alt by lia. by rewrite Nat.sub_diag.
Qed.

(** C2, as the code has it.  Let the first record whose id equals the
    given one up to case be [t], at any place of the collection, and let
    it be valid.  When the payload gives no name or a name that is not
    blank, [update] succeeds; the record at that place becomes [t] with
    exactly the fields the payload gives overwritten, every other field
    (the status and the id among them) as before; the records before and
    after it are untouched, and the file is written only when saving is
    asked for.  When the payload gives a blank name, [update] raises
    [ValidationError] and changes nothing. *)
Theorem update_overwrites_given_fields (st : state) (task_id : string)
    (data : TaskUpdate) (need_save : bool) (pre post : list TaskRead)
    (t : TaskRead) :
  tasks (self st) = pre ++ t :: post →
  Forall (fun u => ¬ same_id task_id (id u)) pre →
  same_id task_id (id t) →
  valid_task t →
  update (PyStr task_id) data need_save st
  = if blank_name data then (Raise ValidationError, st)
    else (Return (),
          updated_state st need_save (pre ++ overwrite data t :: post)).
Proof.
  intros Htasks Hpre Ht Hvalid.
  assert (Hstep : update (PyStr task_id) data need_save st
    = (validated ← lift (model_validate
         (dict_update (serialize_model t) (update_model_dump data)));
       l ← get_tasks;
       set_tasks (<[length pre := validated]> l);;
       when_save need_save) st).
  { unfold update. run. rewrite Htasks, update_loop_skip by done.
    cbn [update_loop]. run. cbn [obj_lower str_eq].
    apply same_id_eqb in Ht. rewrite Ht. cbn beta. by rewrite Htasks. }
  rewrite Hstep. unfold mbind, M_bind, lift, get_tasks, set_tasks.
  destruct (blank_name data) eqn:Hblank.
  - by rewrite model_validate_blank.
  - rewrite model_validate_updated; [|done|].
    + rewrite when_save_run. cbn [self tasks file_name files].
      by rewrite Htasks, insert_middle.
    + unfold blank_name in Hblank. destruct Hvalid as [Hn _].
      destruct (update_name data) as [n|]; [|done]. simpl.
      apply bool_decide_eq_false in Hblank.
      by destruct (validate_author_cases n).
Qed.

Lemma update_overwrites_given_fields_witness :
  let t1 := sample_task "a1" "Task 1" "test task" (Date 2024 12 21) high in
  let t2 := sample_task "B2" "Task 2" "" (Date 2024 12 22) normal in
  let t3 := sample_task "c3" "Task 3" "123" (Date 2024 12 23) low in
  let data := {| update_name := Some "Updated name"; update_description := None;
                 update_category := None; update_deadline := Some (Date 2024 12 20);
                 update_priority := None; update_status := None |} in
  let st := store [t1; t2; t3] in
  update (PyStr "b2") data false st
  = if blank_name data then (Raise ValidationError, st)
    else (Return (),
          updated_state st false ([t1] ++ overwrite data t2 :: [t3])).
Proof.
  intros t1 t2 t3 data st.
  apply (update_overwrites_given_fields st "b2" data false [t1] [t3] t2).
  - reflexivity.
  - repeat constructor. vm_compute. discriminate.
  - reflexivity.
  - split; reflexivity.
Defined.

(** C2 as stated fails: a payload with a blank name is a payload, and
    [update] does not write its fields; it raises [ValidationError]. *)
Lemma update_blank_name_not_written :
  ¬ (∀ (st : state) (task_id : string) (data : TaskUpdate) (t : TaskRead),
       tasks (self st) = [t] → same_id task_id (id t) → valid_task t →
       ∃ st', update (PyStr task_id) data false st = (Return (), st')
            ∧ tasks (self st') = [overwrite data t]).
Proof.
  intros H.
  pose (t := sample_task "a1" "Task 1" "test task" (Date 2024 12 21) high).
  pose (data := {| update_name := Some " "; update_description := None;
                   update_category := None; update_deadline := None;
                   update_priority := None; update_status := Some completed |}).
  destruct (H (store [t]) "A1" data t) as (st' & Hrun & _);
    [done|done|by split|].
  vm_compute in Hrun. discriminate.
Qed.

(** * The matcher of [find] *)

Lemma literal_eq_lower c d :
  Re.literal_eq c d = true ↔ Text.lower_char d = Text.lower_char c.
Proof. unfold Re.literal_eq. rewrite Ascii.eqb_eq. split; congruence. Qed.

Lemma prev_after_cons prev c mid :
  prev_after prev (c :: mid) = prev_after (Some c) mid.
Proof.
  unfold prev_after. destruct mid as [|d mid]; [done|].
  rewrite last_cons_cons. destruct (last (d :: mid)) eqn:E; [done|].
  by apply last_None in E.
Qed.

Lemma match_literals kw p prev text :
  Re.match_here (map Re.Literal kw ++ p) prev text = true
  ↔ ∃ mid post, text = mid ++ post ∧ Text.lower mid = Text.lower kw
       ∧ Re.match_here p (prev_after prev mid) post = true.
Proof.
  revert prev text. induction kw as [|c kw IH]; intros prev text.
  - simpl. split.
    + intros H. by exists [], text.
    + intros (mid & post & -> & Hl & H). by destruct mid.
  - cbn [map app Re.match_here]. destruct text as [|d text].
    + split; [done|]. intros (mid & post & Ht & Hl & _).
      destruct mid; [done|]. done.
    + rewrite andb_true_iff, literal_eq_lower, IH. split.
      * intros (Hc & mid & post & -> & Hl & H).
        exists (d :: mid), post. split; [done|]. split.
        -- simpl. by rewrite Hc, Hl.
        -- by rewrite prev_after_cons.
      * intros (mid & post & Ht & Hl & H).
        destruct mid as [|d' mid]; [done|].
        simpl in Ht, Hl. injection Ht as -> ->. injection Hl as Hc Hl.
        split; [done|]. exists mid, post.
        by rewrite prev_after_cons in H.
Qed.

Lemma match_bounded_word kw prev text :
  Re.match_here (Re.bounded_word kw) prev text = true
  ↔ ∃ mid post, text = mid ++ post ∧ Text.lower mid = Text.lower kw
       ∧ Re.boundary prev (head text) = true
       ∧ Re.boundary (prev_after prev mid) (head post) = true.
Proof.
  unfold Re.bounded_word. cbn [Re.match_here].
  rewrite andb_true_iff, match_literals. split.
  - intros (Hb & mid & post & -> & Hl & H). exists mid, post.
    simpl in H. rewrite andb_true_r in H. done.
  - intros (mid & post & -> & Hl & Hb & H). split; [done|].
    exists mid, post. simpl. by rewrite andb_true_r.
Qed.

Lemma search_from_spec p prev text :
  Re.search_from p prev text = true
  ↔ ∃ pre rest, text = pre ++ rest
       ∧ existsb (fun alt => Re.match_here alt (prev_after prev pre) rest) p
         = true.
Proof.
  revert prev. induction text as [|d text IH]; intros prev.
  - cbn [Re.search_from]. rewrite orb_false_r. split.
    + intros H. by exists [], [].
    + intros (pre & rest & Ht & H). symmetry in Ht.
      apply app_eq_nil in Ht as [-> ->]. done.
  - cbn [Re.search_from]. rewrite orb_true_iff, IH. split.
    + intros [H|(pre & rest & -> & H)].
      * by exists [], (d :: text).
      * exists (d :: pre), rest. by rewrite prev_after_cons.
    + intros (pre & rest & Ht & H). destruct pre as [|d' pre].
      * left. simpl in Ht. by subst.
      * right. simpl in Ht. injection Ht as -> ->. exists pre, rest.
        by rewrite prev_after_cons in H.
Qed.

(** The pattern [find] builds matches somewhere in a text exactly when
    one of the keywords occurs in it as a whole word. *)
Lemma findall_whole_word kws text :
  Re.findall_nonempty (Re.join_alternatives kws) text = true
  ↔ ∃ kw, kw ∈ kws ∧ occurs_whole_word kw text.
Proof.
  unfold Re.findall_nonempty, Re.join_alternatives, occurs_whole_word.
  rewrite search_from_spec. split.
  - intros (pre & rest & -> & H). apply existsb_exists in H as (alt & Hin & H).
    apply in_map_iff in Hin as (kw & <- & Hkw).
    apply match_bounded_word in H as (mid & post & -> & Hl & Hb1 & Hb2).
    exists kw. split; [by apply list_elem_of_In|].
    exists pre, mid, post. unfold prev_after in *. simpl in Hb1.
    rewrite last_app.
    repeat split; try done; by destruct (last pre), (last mid).
  - intros (kw & Hkw & pre & mid & post & -> & Hl & Hb1 & Hb2).
    exists pre, (mid ++ post). split; [done|].
    apply existsb_exists. exists (Re.bounded_word kw). split.
    + apply in_map. by apply list_elem_of_In.
    + apply match_bounded_word. exists mid, post.
      rewrite last_app in Hb2. unfold prev_after. simpl.
      repeat split; try done; by destruct (last pre), (last mid).
Qed.

Lemma found_keyword_hit kws t :
  found (Re.join_alternatives kws) t = true ↔ keyword_hit kws t.
Proof.
  unfold found, keyword_hit.
  destruct (Re.findall_nonempty _ (list_ascii_of_string (name t))) eqn:Hn.
  - apply findall_whole_word in Hn as (kw & Hkw & H). split; [|done].
    intros _. exists kw. auto.
  - rewrite findall_whole_word. split.
    + intros (kw & Hkw & H). exists kw. auto.
    + intros (kw & Hkw & [H|H]).
      * assert (Re.findall_nonempty (Re.join_alternatives kws)
                  (list_ascii_of_string (name t)) = true) as Hn'.
        { apply findall_whole_word. by exists kw. }
        congruence.
      * by exists kw.
Qed.

Global Instance keyword_hit_dec kws t : Decision (keyword_hit kws t).
Proof.
  refine (cast_if (decide (found (Re.join_alternatives kws) t = true)));
    by rewrite <- found_keyword_hit.
Defined.

(** * The keywords of a query *)

Lemma sub_spaces_subseteq s : Re.sub_spaces s ⊆ s.
Proof.
  induction s as [|c s IH]; [done|]. cbn [Re.sub_spaces].
  destruct s as [|d s]; [done|].
  destruct (Ascii.eqb c Text.space && Ascii.eqb d Text.space).
  - by apply list_subseteq_cons.
  - by apply list_subseteq_skip.
Qed.

Lemma lstrip_subseteq s : Text.lstrip s ⊆ s.
Proof.
  induction s as [|c s IH]; [done|]. simpl.
  destruct (Text.is_space c); [by apply list_subseteq_cons|done].
Qed.

Lemma strip_subseteq s : Text.strip s ⊆ s.
Proof.
  unfold Text.strip. intros c.
  rewrite !list_elem_of_In, <- in_rev, <- !list_elem_of_In.
  intros Hc. apply lstrip_subseteq in Hc.
  rewrite list_elem_of_In, <- in_rev, <- list_elem_of_In in Hc.
  by apply lstrip_subseteq.
Qed.

Lemma split_pieces sep s :
  Forall (Forall (fun c => c ∈ s ∧ c ≠ sep)) (Text.split sep s).
Proof.
  induction s as [|c s IH]; [by repeat constructor|].
  assert (Forall (Forall (fun d => d ∈ c :: s ∧ d ≠ sep)) (Text.split sep s))
    as IH'.
  { eapply Forall_impl; [exact IH|]. intros w Hw.
    eapply Forall_impl; [exact Hw|].
    intros d [??]. split; [by right|done]. }
  cbn [Text.split]. destruct (Ascii.eqb c sep) eqn:E.
  - by constructor.
  - apply Ascii.eqb_neq in E. destruct (Text.split sep s) as [|w ws].
    + constructor; [|done]. constructor; [|done]. split; [by left|done].
    + apply Forall_cons in IH' as [Hw Hws]. constructor; [|done].
      constructor; [|done]. split; [by left|done].
Qed.

Lemma keywords_chars query : Forall (Forall keyword_char) (keywords query).
Proof.
  unfold keywords. eapply Forall_impl; [apply split_pieces|].
  intros w Hw. eapply Forall_impl; [exact Hw|].
  intros c [Hc Hne]. split; [|done].
  apply strip_subseteq, sub_spaces_subseteq in Hc.
  unfold Re.sub_not_word_space in Hc.
  apply list_elem_of_In, filter_In in Hc as [_ Hc].
  by apply orb_true_iff in Hc.
Qed.

Lemma sub_spaces_cons c d s :
  Re.sub_spaces (c :: d :: s)
  = if Ascii.eqb c Text.space && Ascii.eqb d Text.space
    then Re.sub_spaces (d :: s) else c :: Re.sub_spaces (d :: s).
Proof. done. Qed.

(** ** The tokenization of [find] and the one of the specification *)

Lemma sub_not_word_space_strip_punctuation s :
  Re.sub_not_word_space s = strip_punctuation s.
Proof.
  unfold Re.sub_not_word_space, strip_punctuation.
  apply List_filter_prop. intros c. unfold punctuation.
  destruct (Text.is_word c), (Text.is_space c); simpl; intuition discriminate.
Qed.

Lemma sub_spaces_collapse_cons s : ∀ c,
  Re.sub_spaces (c :: s)
  = if is_the_space c then Text.space :: collapse_runs is_the_space true s
    else c :: collapse_runs is_the_space false s.
Proof.
  unfold is_the_space.
  induction s as [|d s IH]; intros c.
  - simpl. destruct (Ascii.eqb c Text.space) eqn:E; [|done].
    by apply Ascii.eqb_eq in E as ->.
  - rewrite sub_spaces_cons, IH. cbn [collapse_runs]. unfold is_the_space.
    destruct (Ascii.eqb c Text.space) eqn:Ec;
      destruct (Ascii.eqb d Text.space) eqn:Ed; simpl; try done.
    by apply Ascii.eqb_eq in Ec as ->.
Qed.

Lemma sub_spaces_collapse s :
  Re.sub_spaces s = collapse_runs is_the_space false s.
Proof.
  destruct s as [|c s]; [done|]. rewrite sub_spaces_collapse_cons.
  by cbn [collapse_runs].
Qed.

Lemma lstrip_drop s : Text.lstrip s = drop (leading_white s) s.
Proof.
  induction s as [|c s IH]; [done|]. simpl.
  by destruct (Text.is_space c).
Qed.

Lemma strip_trim s : Text.strip s = trim s.
Proof.
  unfold Text.strip, trim. rewrite <- (lstrip_drop s).
  rewrite lstrip_drop, skipn_rev. apply rev_involutive.
Qed.

Lemma split_nonempty sep s : Text.split sep s ≠ [].
Proof.
  destruct s as [|c s]; [done|]. simpl.
  destruct (Ascii.eqb c sep); [done|]. by destruct (Text.split sep s).
Qed.

Lemma split_pieces_acc s : ∀ word,
  pieces word s
  = match Text.split Text.space s with
    | w :: ws => (word ++ w) :: ws
    | [] => [word]
    end.
Proof.
  induction s as [|c s IH]; intros word.
  - simpl. by rewrite app_nil_r.
  - cbn [pieces Text.split]. destruct (decide (c = Text.space)) as [->|Hc].
    + rewrite Ascii.eqb_refl, app_nil_r. f_equal.
      rewrite IH. pose proof (split_nonempty Text.space s).
      by destruct (Text.split Text.space s).
    + apply Ascii.eqb_neq in Hc. rewrite Hc, IH.
      pose proof (split_nonempty Text.space s).
      destruct (Text.split Text.space s); [done|].
      by rewrite <- app_assoc.
Qed.

Lemma keywords_tokens query : keywords query = tokens is_the_space query.
Proof.
  unfold keywords, tokens.
  rewrite sub_not_word_space_strip_punctuation, sub_spaces_collapse,
    strip_trim, split_pieces_acc.
  pose proof (split_nonempty Text.space
    (trim (collapse_runs is_the_space false
             (strip_punctuation (list_ascii_of_string query))))).
  by destruct (Text.split _ _).
Qed.

Lemma collapse_runs_ext (f g : ascii → bool) s : ∀ b,
  Forall (fun c => f c = g c) s →
  collapse_runs f b s = collapse_runs g b s.
Proof.
  induction s as [|c s IH]; intros b Hs; [done|].
  apply Forall_cons in Hs as [Hc Hs]. cbn [collapse_runs].
  rewrite Hc. by rewrite !IH.
Qed.

Lemma tokens_spaces_only query :
  spaces_only query → tokens Text.is_space query = tokens is_the_space query.
Proof.
  intros Hq. unfold tokens. do 2 f_equal. apply collapse_runs_ext.
  apply Forall_forall. intros c Hc.
  apply list_elem_of_filter in Hc as [_ Hc].
  unfold spaces_only in Hq. rewrite Forall_forall in Hq.
  specialize (Hq c Hc). unfold is_the_space.
  destruct (Text.is_space c) eqn:E.
  - rewrite Hq by done. by rewrite Ascii.eqb_refl.
  - destruct (Ascii.eqb c Text.space) eqn:E'; [|done].
    apply Ascii.eqb_eq in E' as ->. by vm_compute in E.
Qed.

(** * [find] *)

(** C4.  What [find] does, and where it leaves the specification.  The
    keywords of a query are those of the specification, with runs of the
    space character in the place of runs of white space: punctuation
    (what is neither a word character nor white space) is deleted, every
    run of spaces becomes one space, white space is trimmed at both ends,
    and the text is split at single spaces.  For a query whose white
    space is spaces only, these are the keywords of the specification.
    [find] returns the records in which some keyword occurs as a whole
    word, the case of letters aside, in the name or in the description:
    all of them, each as often as the collection has it, in the canonical
    order (ascending in the five-part key, records of one key in the order
    of the collection); the state is left as it is.  On white space other
    than the space the code leaves the specification: for the query
    [get<TAB>task] the keywords of the specification are [get] and
    [task], and [get] is a whole word of the name of the record; the code
    keeps the one keyword [get<TAB>task] and finds nothing. *)
Theorem find_whole_word_matches (st : state) (query : string) :
  let hits := filter (keyword_hit (keywords query)) (tasks (self st)) in
  let get_record := sample_task "a1" "get" "" (Date 2024 12 21) high in
  keywords query = tokens is_the_space query
  ∧ (spaces_only query → keywords query = tokens Text.is_space query)
  ∧ (∃ l, find query st = (Return l, st)
       ∧ l ≡ₚ hits
       ∧ (∀ t, t ∈ l ↔ t ∈ tasks (self st) ∧ keyword_hit (keywords query) t)
       ∧ canonical_ascending l
       ∧ ∀ k, with_key k l = with_key k hits)
  ∧ (tokens Text.is_space get_tab_task
     = [list_ascii_of_string "get"; list_ascii_of_string "task"]
     ∧ keywords get_tab_task = [list_ascii_of_string get_tab_task]
     ∧ keyword_hit (tokens Text.is_space get_tab_task) get_record
     ∧ find get_tab_task (store [get_record])
       = (Return [], store [get_record])).
Proof.
  intros hits get_record.
  split; [apply keywords_tokens|].
  split; [intros Hq; by rewrite keywords_tokens, tokens_spaces_only|].
  split.
  - exists (sorted _basic_sorting_key tuple_ltb hits).
    assert (l_perm : sorted _basic_sorting_key tuple_ltb hits ≡ₚ hits)
      by apply sorted_perm.
    split; [|split; [done|]]; [|split; [|split]].
    + unfold find. run. do 3 f_equal. apply List_filter_prop.
      intros t. apply found_keyword_hit.
    + intros t. rewrite l_perm. unfold hits. rewrite list_elem_of_filter. tauto.
    + apply sorted_canonical_ascending.
    + intros k. apply (sorted_stable _ tuple_eqb tuple_ltb).
  - split; [by vm_compute|]. split; [by vm_compute|]. split; [|by vm_compute].
    exists (list_ascii_of_string "get"). split.
    + vm_compute. by left.
    + left. exists [], (list_ascii_of_string "get"), []. by vm_compute.
Qed.

Lemma find_whole_word_matches_witness :
  keywords "Get,  the task! " = tokens Text.is_space "Get,  the task! "
  ∧ tokens Text.is_space "Get,  the task! "
    = [list_ascii_of_string "Get"; list_ascii_of_string "the";
       list_ascii_of_string "task"].
Proof.
  destruct (find_whole_word_matches (store []) "Get,  the task! ")
    as (_ & Hclaim & _).
  split; [|by vm_compute]. apply Hclaim.
  repeat (constructor; [intros H; try reflexivity; by vm_compute in H|]).
  constructor.
Defined.

Lemma found_description p t :
  Re.findall_nonempty p (list_ascii_of_string (description t)) = true →
  found p t = true.
Proof. intros H. unfold found. rewrite H. by case_match. Qed.

Lemma found_neither p t :
  Re.findall_nonempty p (list_ascii_of_string (name t)) = false →
  Re.findall_nonempty p (list_ascii_of_string (description t)) = false →
  found p t = false.
Proof. intros Hn Hd. unfold found. by rewrite Hn, Hd. Qed.

(** The canonical list of two records: the second stands first exactly
    when it comes before the first in the five-part order. *)
Lemma sorted_two (r1 r2 : TaskRead) :
  (canonical_before r2 r1 →
   sorted _basic_sorting_key tuple_ltb [r1; r2] = [r2; r1])
  ∧ (¬ canonical_before r2 r1 →
     sorted _basic_sorting_key tuple_ltb [r1; r2] = [r1; r2]).
Proof.
  cbn [sorted foldr insert_sorted]. rewrite <- tuple_ltb_canonical.
  destruct (tuple_ltb (_basic_sorting_key r2) (_basic_sorting_key r1));
    split; intros H; try done.
Qed.

(** C5, as the code has it.  In a collection of two records, one with
    the description [test get task] and one with the description
    [test update task], in either order, the query [get task] finds both,
    in the canonical order: the second record of the collection stands
    first exactly when it comes before the first in the five-part order of
    priority, status, deadline, category and name.  The keywords are
    [get] and [task], and [task] is a whole word of both descriptions.
    The query [get] finds only the record with the description
    [test get task], when [get] is a whole word of neither name. *)
Theorem find_get_task_finds_both (a b : TaskRead) (f : string)
    (fs : gmap string file) :
  (description a = "test get task" ∧ description b = "test update task")
  ∨ (description a = "test update task" ∧ description b = "test get task") →
  let st := {| self := {| file_name := f; tasks := [a; b] |}; files := fs |} in
  (∃ l, find "get task" st = (Return l, st)
      ∧ (canonical_before b a → l = [b; a])
      ∧ (¬ canonical_before b a → l = [a; b]))
  ∧ (¬ occurs_whole_word (list_ascii_of_string "get")
         (list_ascii_of_string (name a)) →
     ¬ occurs_whole_word (list_ascii_of_string "get")
         (list_ascii_of_string (name b)) →
     ∃ r, find "get" st = (Return [r], st)
        ∧ r ∈ [a; b]
        ∧ description r = "test get task").
Proof.
  intros Hab st. subst st.
  assert (∀ r, ¬ occurs_whole_word (list_ascii_of_string "get")
                   (list_ascii_of_string (name r)) →
               description r = "test update task" →
               found (Re.join_alternatives (keywords "get")) r = false)
    as Hmiss.
  { intros r Hn Hd. apply found_neither.
    - destruct (Re.findall_nonempty _ _) eqn:E; [|done].
      apply findall_whole_word in E as (kw & Hkw & Hocc).
      vm_compute in Hkw. apply list_elem_of_singleton in Hkw as ->.
      by destruct Hn.
    - rewrite Hd. by vm_compute. }
  split.
  - exists (sorted _basic_sorting_key tuple_ltb [a; b]).
    split; [|apply sorted_two].
    unfold find. run. do 3 f_equal. cbn [List.filter].
    rewrite !found_description; [done| |].
    + destruct Hab as [[_ ->]|[_ ->]]; by vm_compute.
    + destruct Hab as [[-> _]|[-> _]]; by vm_compute.
  - intros Hna Hnb. destruct Hab as [[Ha Hb]|[Ha Hb]].
    + exists a. split; [|split; [by left|done]].
      unfold find. run. do 2 f_equal. cbn [List.filter].
      rewrite found_description by (rewrite Ha; by vm_compute).
      by rewrite (Hmiss b Hnb Hb).
    + exists b. split; [|split; [by right; left|done]].
      unfold find. run. do 2 f_equal. cbn [List.filter].
      rewrite (Hmiss a Hna Ha).
      by rewrite found_description by (rewrite Hb; by vm_compute).
Qed.

Lemma no_whole_word kw text :
  Re.findall_nonempty (Re.join_alternatives [kw]) text = false →
  ¬ occurs_whole_word kw text.
Proof.
  intros E Hocc.
  assert (Re.findall_nonempty (Re.join_alternatives [kw]) text = true);
    [|congruence].
  apply findall_whole_word. exists kw. split; [by left|done].
Qed.

Lemma find_get_task_finds_both_witness :
  let r1 := {| name := "First"; description := "test get task";
               category := work; deadline := Date 2025 1 1; priority := low;
               id := "a1"; status := not_completed |} in
  let st := store [r1; update_task_record] in
  find "get task" st = (Return [update_task_record; r1], st)
  ∧ ∃ r, find "get" st = (Return [r], st)
       ∧ r ∈ [r1; update_task_record]
       ∧ description r = "test get task".
Proof.
  intros r1 st.
  destruct (find_get_task_finds_both r1 update_task_record
              "tasks.json" ∅ (or_introl (conj eq_refl eq_refl)))
    as [(l & Hl & Hbefore & _) Hget].
  split.
  - rewrite <- Hbefore; [exact Hl|]. by left.
  - apply Hget; apply no_whole_word; reflexivity.
Defined.

(** C5 as stated fails: for the two records of the example, whose names
    hold neither [get] nor [task] as a whole word, [find] with the query
    [get task] does not return the first alone (it returns both). *)
Lemma find_get_task_not_first_alone :
  ¬ (∀ r1 r2 : TaskRead,
       description r1 = "test get task" →
       description r2 = "test update task" →
       (∀ kw, kw ∈ keywords "get task" →
          ¬ occurs_whole_word kw (list_ascii_of_string (name r1))
          ∧ ¬ occurs_whole_word kw (list_ascii_of_string (name r2))) →
       find "get task" (store [r1; r2]) = (Return [r1], store [r1; r2])).
Proof.
  intros H.
  specialize (H get_task_record update_task_record eq_refl eq_refl).
  assert (Hnone : ∀ r kw,
    Re.findall_nonempty (Re.join_alternatives (keywords "get task"))
      (list_ascii_of_string (name r)) = false →
    kw ∈ keywords "get task" →
    ¬ occurs_whole_word kw (list_ascii_of_string (name r))).
  { intros r kw E Hkw Hocc.
    assert (Re.findall_nonempty (Re.join_alternatives (keywords "get task"))
              (list_ascii_of_string (name r)) = true); [|congruence].
    apply findall_whole_word. by exists kw. }
  assert (find "get task" (store [get_task_record; update_task_record])
          = (Return [get_task_record],
             store [get_task_record; update_task_record])) as Hfind.
  { apply H. intros kw Hkw. split; by apply Hnone. }
  vm_compute in Hfind. discriminate.
Qed.

(** * [find] on a query without a word character *)

Lemma lstrip_spaces s :
  Forall (fun c => Text.is_space c = true) s → Text.lstrip s = [].
Proof. induction 1 as [|c s Hc _ IH]; [done|]. simpl. by rewrite Hc. Qed.

Lemma keywords_blank query :
  Forall (fun c => Text.is_word c = false) (list_ascii_of_string query) →
  keywords query = [[]].
Proof.
  intros Hq. unfold keywords.
  assert (Forall (fun c => Text.is_space c = true)
            (Re.sub_spaces (Re.sub_not_word_space (list_ascii_of_string query))))
    as Hs.
  { apply Forall_forall. intros c Hc. apply sub_spaces_subseteq in Hc.
    unfold Re.sub_not_word_space in Hc.
    apply list_elem_of_In, filter_In in Hc as [Hc Hkeep].
    rewrite Forall_forall in Hq. apply list_elem_of_In, Hq in Hc.
    by rewrite Hc in Hkeep. }
  unfold Text.strip. by rewrite (lstrip_spaces _ Hs).
Qed.

(** The pattern of the empty keyword, two word boundaries, matches
    somewhere in a text exactly when the text has a word character. *)
Lemma search_empty_keyword prev text :
  Re.word_at prev = false →
  Re.search_from (Re.join_alternatives [[]]) prev text
  = existsb Text.is_word text.
Proof.
  revert prev. induction text as [|c text IH]; intros prev Hprev.
  - simpl. unfold Re.boundary. by rewrite Hprev.
  - cbn [Re.search_from Re.join_alternatives map existsb Re.bounded_word app
         Re.match_here head].
    unfold Re.boundary. rewrite Hprev. cbn [Re.word_at xorb].
    destruct (Text.is_word c) eqn:Hc; [done|]. simpl. by apply IH.
Qed.

Lemma existsb_has_word_char s :
  existsb Text.is_word (list_ascii_of_string s) = true ↔ has_word_char s.
Proof.
  unfold has_word_char. rewrite existsb_exists, Exists_exists.
  by setoid_rewrite list_elem_of_In.
Qed.

(** C10. A query without a word character (the empty query, or one made
    of white space and punctuation only) tokenizes to the single empty
    keyword.  For every query that tokenizes to the single empty keyword,
    [find] returns the records whose name or description has at least one
    word character (the pattern of the empty keyword, two word
    boundaries, matches wherever a word begins or ends): all of them,
    each as often as the collection has it, in the canonical order
    (ascending in the five-part key, records of one key in the order of
    the collection); it leaves the state as it is. *)
Theorem find_query_without_word_char (st : state) (query : string) :
  let hits := filter (fun t => has_word_char (name t)
                               ∨ has_word_char (description t))
                     (tasks (self st)) in
  (Forall (fun c => Text.is_word c = false) (list_ascii_of_string query) →
   keywords query = [[]])
  ∧ (keywords query = [[]] →
     ∃ l, find query st = (Return l, st)
        ∧ l ≡ₚ hits
        ∧ (∀ t, t ∈ l ↔ t ∈ tasks (self st)
                         ∧ (has_word_char (name t)
                            ∨ has_word_char (description t)))
        ∧ canonical_ascending l
        ∧ ∀ k, with_key k l = with_key k hits).
Proof.
  intros hits. split; [apply keywords_blank|]. intros Hk.
  exists (sorted _basic_sorting_key tuple_ltb hits).
  assert (l_perm : sorted _basic_sorting_key tuple_ltb hits ≡ₚ hits)
    by apply sorted_perm.
  split; [|split; [done|]]; [|split; [|split]].
  - unfold find. rewrite Hk. run. do 3 f_equal. apply List_filter_prop.
    intros t. unfold found, Re.findall_nonempty.
    rewrite !search_empty_keyword by done.
    rewrite <- !existsb_has_word_char.
    destruct (existsb Text.is_word (list_ascii_of_string (name t)));
      intuition discriminate.
  - intros t. rewrite l_perm. unfold hits. rewrite list_elem_of_filter. tauto.
  - apply sorted_canonical_ascending.
  - intros k. apply (sorted_stable _ tuple_eqb tuple_ltb).
Qed.

Lemma find_query_without_word_char_witness :
  let t1 := sample_task "a1" "Task 1" "test task" (Date 2024 12 21) low in
  let t2 := sample_task "b2" "!?" "" (Date 2024 12 20) high in
  let t3 := sample_task "c3" "..." "x" (Date 2024 12 19) high in
  let st := store [t1; t2; t3] in
  keywords " ?! " = [[]]
  ∧ find " ?! " st = (Return [t3; t1], st)
  ∧ ∃ l, find " ?! " st = (Return l, st)
       ∧ l ≡ₚ [t1; t3]
       ∧ canonical_ascending l.
Proof.
  intros t1 t2 t3 st.
  destruct (find_query_without_word_char st " ?! ") as [Hk Hfind].
  split; [apply Hk; repeat constructor|].
  split; [by vm_compute|].
  destruct Hfind as (l & Hl & Hperm & _ & Hasc & _); [reflexivity|].
  exists l. split; [exact Hl|]. split; [|exact Hasc].
  rewrite Hperm. by vm_compute.
Defined.

(** * [add] *)

Lemma add_run (data : TaskCreate) (need_save : bool) (uuid4 : string)
    (st : state) :
  validate_author (create_name data) = Some (create_name data) →
  add data need_save uuid4 st
  = (Return (created data uuid4),
     {| self := {| file_name := file_name (self st);
                   tasks := tasks (self st) ++ [created data uuid4] |};
        files := files_after need_save (file_name (self st))
                   (tasks (self st) ++ [created data uuid4]) (files st) |}).
Proof.
  intros Hname. unfold add, mbind, M_bind, lift, get_tasks, set_tasks.
  assert (model_validate
            (<["id" := VStr uuid4]>
               (<["status" := VStr (status_value not_completed)]>
                  (create_model_dump data)))
          = Return (created data uuid4)) as ->.
  { by apply model_validate_fields. }
  by rewrite when_save_run.
Qed.

(** * The test suite of the repository, run on the model *)

Example test_get_all :
  match (add_all test_payloads test_ids;; get_all) empty_store with
  | (Return l, _) => name <$> l
  | (Raise _, _) => []
  end
  = ["Task 1"; "Task 2"; "Task 10"; "Task 8"; "Task 9"; "Task 12"; "Task 3";
     "Task 11"].
Proof. by vm_compute. Qed.

Example test_get_by_id_not_valid_id_type :
  fst ((test_session;; get_by_id (PyInt 1)) empty_store) = Raise AttributeError.
Proof. by vm_compute. Qed.

Example test_update_task_does_not_exist :
  fst ((test_session;;
        update (PyStr "1")
          {| update_name := None; update_description := None;
             update_category := None; update_deadline := None;
             update_priority := None; update_status := Some completed |}
          false) empty_store)
  = Raise (TaskDoesNotExists (PyStr "1")).
Proof. by vm_compute. Qed.

Example test_get_by_category :
  count (test_session;; get_by_category (category_value work)) empty_store = 5%nat
  ∧ count (test_session;; get_by_category (category_value personal)) empty_store
    = 1%nat
  ∧ count (test_session;; get_by_category "some category") empty_store = 0%nat.
Proof. by vm_compute. Qed.

Example test_get_by_category_and_status :
  count (test_session;;
         get_by_category_and_status (category_value work)
           (status_value completed)) empty_store = 2%nat
  ∧ count (test_session;;
           get_by_category_and_status (category_value personal)
             (status_value completed)) empty_store = 1%nat
  ∧ count (test_session;;
           get_by_category_and_status (category_value personal)
             (status_value not_completed)) empty_store = 0%nat.
Proof. by vm_compute. Qed.

Example test_find :
  (fun query => count (test_session;; find query) empty_store)
  <$> ["task"; "get"; "get task"; "tasks"; "updated   task"; "get, update";
       "%get  &  updated!"; " get  "]
  = [9; 1; 9; 0; 10; 1; 2; 1]%nat.
Proof. by vm_compute. Qed.

Example test_save_data :
  match (test_session;; save_data) empty_store with
  | (Return _, st) =>
      match __init__ "test_tasks.json" (files st) with
      | Return another =>
          (bool_decide (tasks another = tasks (self st)),
           length (tasks another))
      | Raise _ => (false, 0%nat)
      end
  | (Raise _, _) => (false, 0%nat)
  end = (true, 10%nat).
Proof. by vm_compute. Qed.

(** * Further properties of the service *)

(** ** What [model_validate] returns *)

Lemma bind_Some_inv {A B} (o : option A) (k : A → option B) b :
  o ≫= k = Some b → ∃ a, o = Some a ∧ k a = Some b.
Proof. destruct o as [a|]; [|done]. intros H. by exists a. Qed.

Lemma validate_author_Some n m : validate_author n = Some m → m = n.
Proof. unfold validate_author. destruct (Text.strip _); congruence. Qed.

Lemma status_of_inv s x : status_of s = Some x → s = status_value x.
Proof.
  unfold status_of.
  repeat case_match; try done; intros [= <-];
    by match goal with H : String.eqb _ _ = true |- _ =>
         apply String.eqb_eq in H end.
Qed.

Lemma priority_of_inv s x : priority_of s = Some x → s = priority_value x.
Proof.
  unfold priority_of.
  repeat case_match; try done; intros [= <-];
    by match goal with H : String.eqb _ _ = true |- _ =>
         apply String.eqb_eq in H end.
Qed.

Lemma category_of_inv s x : category_of s = Some x → s = category_value x.
Proof.
  unfold category_of.
  repeat case_match; try done; intros [= <-];
    by match goal with H : String.eqb _ _ = true |- _ =>
         apply String.eqb_eq in H end.
Qed.

(** A [dict] that validates holds the seven fields of the record it gives,
    and the name of that record is not blank. *)
Lemma model_validate_inv (d : gmap string value) t :
  model_validate d = Return t →
  str_field d "name" = Some (name t)
  ∧ validate_author (name t) = Some (name t)
  ∧ str_field d "description" = Some (description t)
  ∧ str_field d "category" = Some (category_value (category t))
  ∧ date_field d "deadline" = Some (deadline t)
  ∧ str_field d "priority" = Some (priority_value (priority t))
  ∧ str_field d "id" = Some (id t)
  ∧ str_field d "status" = Some (status_value (status t)).
Proof.
  unfold model_validate. intros H.
  destruct (_ ≫= _) as [t'|] eqn:E in H; [|done]. injection H as ->.
  apply bind_Some_inv in E as (n & Hn & E).
  apply bind_Some_inv in Hn as (n0 & Hn0 & Hv).
  pose proof (validate_author_Some _ _ Hv) as ->.
  apply bind_Some_inv in E as (ds & Hds & E).
  apply bind_Some_inv in E as (c & Hc & E).
  apply bind_Some_inv in Hc as (c0 & Hc0 & Hc).
  apply category_of_inv in Hc as ->.
  apply bind_Some_inv in E as (dl & Hdl & E).
  apply bind_Some_inv in E as (p & Hp & E).
  apply bind_Some_inv in Hp as (p0 & Hp0 & Hp).
  apply priority_of_inv in Hp as ->.
  apply bind_Some_inv in E as (i & Hi & E).
  apply bind_Some_inv in E as (s & Hs & E).
  apply bind_Some_inv in Hs as (s0 & Hs0 & Hs).
  apply status_of_inv in Hs as ->.
  injection E as <-. simpl. by repeat split.
Qed.

Lemma model_validate_outcome (d : gmap string value) :
  (∃ t, model_validate d = Return t) ∨ model_validate d = Raise ValidationError.
Proof. unfold model_validate. destruct (_ ≫= _); eauto. Qed.

(** ** [add] *)

Lemma add_blank (data : TaskCreate) (need_save : bool) (uuid4 : string)
    (st : state) :
  validate_author (create_name data) = None →
  add data need_save uuid4 st = (Raise ValidationError, st).
Proof.
  intros Hblank. unfold add, mbind, M_bind, lift.
  assert (model_validate
            (<["id" := VStr uuid4]>
               (<["status" := VStr (status_value not_completed)]>
                  (create_model_dump data)))
          = Raise ValidationError) as ->; [|done].
  unfold model_validate.
  change (str_field _ "name") with (Some (create_name data)).
  simpl. by rewrite Hblank.
Qed.

Lemma add_cases (data : TaskCreate) (need_save : bool) (uuid4 : string)
    (st : state) :
  add data need_save uuid4 st
  = match validate_author (create_name data) with
    | Some _ =>
        (Return (created data uuid4),
         updated_state st need_save (tasks (self st) ++ [created data uuid4]))
    | None => (Raise ValidationError, st)
    end.
Proof.
  destruct (validate_author_cases (create_name data)) as [H|H]; rewrite H.
  - by apply add_blank.
  - by apply add_run.
Qed.

(** X1. [add] on a payload whose name is not blank returns the new
    record, with the fields of the payload, the fresh identifier as its id
    and the status [not_completed]; the record is appended at the end of
    the collection, the records already there are untouched, and the file
    is written only when saving is asked for.  On a blank name it raises
    [ValidationError] and changes nothing. *)
Theorem add_appends_created_record (data : TaskCreate) (need_save : bool)
    (uuid4 : string) (st : state) :
  add data need_save uuid4 st
  = match validate_author (create_name data) with
    | Some _ =>
        (Return (created data uuid4),
         updated_state st need_save (tasks (self st) ++ [created data uuid4]))
    | None => (Raise ValidationError, st)
    end.
Proof. apply add_cases. Qed.

(** ** [get_by_id] after the loop has passed the records without the id *)

Lemma get_by_id_loop_found s pre t post :
  Forall (fun u => ¬ same_id s (id u)) pre →
  same_id s (id t) →
  get_by_id_loop (PyStr s) (pre ++ t :: post) = Return (Some t).
Proof.
  intros Hpre Ht. induction Hpre as [|u pre Hu _ IH]; simpl.
  - unfold mbind, outcome_bind. apply same_id_eqb in Ht. by rewrite Ht.
  - unfold mbind, outcome_bind.
    destruct (String.eqb (str_lower s) (str_lower (id u))) eqn:E; [|done].
    by apply same_id_eqb in E.
Qed.

(** ** [delete] *)

Lemma list_remove_middle pre t post :
  t ∉ pre → list_remove t (pre ++ t :: post) = pre ++ post.
Proof.
  induction pre as [|u pre IH]; intros Hnot; simpl.
  - by rewrite decide_True.
  - apply not_elem_of_cons in Hnot as [Hne Hnot].
    rewrite decide_False by congruence. by rewrite IH.
Qed.

Lemma delete_run (st : state) (task_id : string) (need_save : bool)
    (pre post : list TaskRead) (t : TaskRead) :
  tasks (self st) = pre ++ t :: post →
  Forall (fun u => ¬ same_id task_id (id u)) pre →
  same_id task_id (id t) →
  delete (PyStr task_id) need_save st
  = (Return (), updated_state st need_save (pre ++ post)).
Proof.
  intros Htasks Hpre Ht. unfold delete, get_by_id, mbind, M_bind, lift, get_tasks.
  rewrite Htasks, get_by_id_loop_found by done. unfold set_tasks.
  rewrite when_save_run. cbn [self tasks file_name files].
  rewrite Htasks, list_remove_middle; [done|].
  intros Hin. rewrite Forall_forall in Hpre. by apply (Hpre t).
Qed.

(** X2. When the collection has a record with the given id (up to case),
    [delete] succeeds and removes the first such record and nothing else:
    the records before it and after it stay, in their order; the file is
    written only when saving is asked for. *)
Theorem delete_removes_first_match (st : state) (task_id : string)
    (need_save : bool) (pre post : list TaskRead) (t : TaskRead) :
  tasks (self st) = pre ++ t :: post →
  Forall (fun u => ¬ same_id task_id (id u)) pre →
  same_id task_id (id t) →
  delete (PyStr task_id) need_save st
  = (Return (), updated_state st need_save (pre ++ post)).
Proof. apply delete_run. Qed.

Lemma delete_removes_first_match_witness :
  let t1 := sample_task "a1" "Task 1" "test task" (Date 2024 12 21) high in
  let t2 := sample_task "B2" "Task 2" "" (Date 2024 12 22) normal in
  let t3 := sample_task "b2" "Task 3" "123" (Date 2024 12 23) low in
  let st := store [t1; t2; t3] in
  delete (PyStr "b2") true st = (Return (), updated_state st true ([t1] ++ [t3])).
Proof.
  intros t1 t2 t3 st.
  apply (delete_removes_first_match st "b2" true [t1] [t3] t2).
  - reflexivity.
  - repeat constructor. vm_compute. discriminate.
  - reflexivity.
Defined.

(** ** The outcomes of [update] and [delete] *)

Lemma first_match_split (s : string) (l : list TaskRead) :
  Forall (fun u => ¬ same_id s (id u)) l
  ∨ ∃ pre t post, l = pre ++ t :: post
      ∧ Forall (fun u => ¬ same_id s (id u)) pre ∧ same_id s (id t).
Proof.
  destruct (get_by_id_loop_text s l) as ([t|] & _ & H); [right|by left].
  destruct H as (pre & post & -> & Ht & Hpre). by exists pre, t, post.
Qed.

(** [update] once its loop has reached the first record with the id. *)
Lemma update_at (st : state) (task_id : string) (data : TaskUpdate)
    (need_save : bool) (pre post : list TaskRead) (t : TaskRead) :
  tasks (self st) = pre ++ t :: post →
  Forall (fun u => ¬ same_id task_id (id u)) pre →
  same_id task_id (id t) →
  update (PyStr task_id) data need_save st
  = match model_validate (update_dict t data) with
    | Return v => (Return (), updated_state st need_save (pre ++ v :: post))
    | Raise e => (Raise e, st)
    end.
Proof.
  intros Htasks Hpre Ht. unfold update, update_dict.
  unfold mbind at 1, M_bind at 1, get_tasks at 1. cbn [fst snd].
  rewrite Htasks, update_loop_skip by done.
  cbn [update_loop]. unfold mbind, M_bind, lift, get_tasks, set_tasks.
  cbn [obj_lower str_eq]. apply same_id_eqb in Ht. rewrite Ht.
  destruct (model_validate _) as [v|e]; [|done].
  rewrite when_save_run. cbn [self tasks file_name files Nat.add].
  by rewrite Htasks, insert_middle.
Qed.

Lemma update_loop_bytes b data need_save l : ∀ i st,
  update_loop (PyBytes b) data need_save i l st
  = (Raise (TaskDoesNotExists (PyBytes b)), st).
Proof.
  induction l as [|t l IH]; intros i st; [done|].
  cbn [update_loop]. run. cbn [obj_lower str_eq]. apply IH.
Qed.

Lemma update_outcome (task_id : pyobj) (data : TaskUpdate) (need_save : bool)
    (st : state) :
  (∃ e, update task_id data need_save st = (Raise e, st))
  ∨ (∃ pre t post v,
       tasks (self st) = pre ++ t :: post
       ∧ model_validate (update_dict t data) = Return v
       ∧ update task_id data need_save st
         = (Return (), updated_state st need_save (pre ++ v :: post))).
Proof.
  destruct task_id as [s|b|z].
  - destruct (first_match_split s (tasks (self st)))
      as [Habs|(pre & t & post & Htasks & Hpre & Ht)].
    + left. eexists. unfold update. run.
      rewrite <- (app_nil_r (tasks (self st))), update_loop_skip by done.
      reflexivity.
    + rewrite (update_at st s data need_save pre post t) by done.
      destruct (model_validate (update_dict t data)) as [v|e] eqn:E.
      * right. by exists pre, t, post, v.
      * left. by exists e.
  - left. eexists. unfold update. run. apply update_loop_bytes.
  - left. unfold update. run. destruct (tasks (self st)); by eexists.
Qed.

Lemma delete_outcome (task_id : pyobj) (need_save : bool) (st : state) :
  (∃ e, delete task_id need_save st = (Raise e, st))
  ∨ (∃ pre t post,
       tasks (self st) = pre ++ t :: post
       ∧ delete task_id need_save st
         = (Return (), updated_state st need_save (pre ++ post))).
Proof.
  destruct task_id as [s|b|z].
  - destruct (first_match_split s (tasks (self st)))
      as [Habs|(pre & t & post & Htasks & Hpre & Ht)].
    + left. eexists. unfold delete, get_by_id. run.
      by rewrite get_by_id_loop_absent.
    + right. exists pre, t, post. split; [done|]. by apply (delete_run _ _ _ _ _ t).
  - left. eexists. unfold delete, get_by_id. run.
    by rewrite get_by_id_loop_bytes.
  - left. unfold delete, get_by_id. run.
    destruct (tasks (self st)); by eexists.
Qed.

(** A text the validator reads as a date is the text of a date that
    exists. *)
Lemma date_of_text_valid s d : date_of_text s = Some d → valid_date d = true.
Proof.
  unfold date_of_text. intros H.
  repeat (case_match; try done).
  apply bind_Some_inv in H as (yy & _ & H).
  apply bind_Some_inv in H as (mm & _ & H).
  apply bind_Some_inv in H as (dd & _ & H).
  destruct (valid_date (Date yy mm dd)) eqn:Hv; [|done].
  by injection H as <-.
Qed.

(** The record [update] writes has the id of the record it replaces, a
    name that is not blank, and a deadline that exists when the one of the
    payload does. *)
Lemma update_dict_validated t data v :
  model_validate (update_dict t data) = Return v →
  id v = id t
  ∧ validate_author (name v) = Some (name v)
  ∧ (valid_update data → valid_date (deadline v) = true).
Proof.
  intros Hv. apply model_validate_inv in Hv
    as (_ & Hname & _ & _ & Hdl & _ & Hid & _).
  destruct (updated_fields t data) as (_ & _ & _ & Hd & _ & Hi & _).
  fold (update_dict t data) in Hd, Hi.
  rewrite Hi in Hid. injection Hid as Hid. split; [done|]. split; [done|].
  intros Hdata. unfold date_field in Hdl. rewrite Hd in Hdl.
  destruct (update_deadline data) as [dl|] eqn:E; simpl in Hdl.
  - injection Hdl as <-. by apply Hdata.
  - by apply date_of_text_valid in Hdl.
Qed.

(** ** Invariants of the collection *)

(** X3. Whatever the id, the payload and the outcome, [update] leaves the
    ids of the collection as they are, record by record (so its length and
    its order too), and the path of the service. *)
Theorem update_keeps_every_id (task_id : pyobj) (data : TaskUpdate)
    (need_save : bool) (st : state) :
  let st' := (update task_id data need_save st).2 in
  id <$> tasks (self st') = id <$> tasks (self st)
  ∧ file_name (self st') = file_name (self st).
Proof.
  destruct (update_outcome task_id data need_save st)
    as [[e ->]|(pre & t & post & v & Htasks & Hv & ->)]; [done|].
  cbn [snd updated_state self tasks file_name]. split; [|done].
  apply update_dict_validated in Hv as (Hid & _).
  by rewrite Htasks, !fmap_app, !fmap_cons, Hid.
Qed.

Lemma valid_task_app l t :
  Forall valid_task l → valid_task t → Forall valid_task (l ++ [t]).
Proof. intros. apply Forall_app. split; [done|]. by constructor. Qed.

Lemma add_keeps_valid data need_save uuid4 st :
  valid_date (create_deadline data) = true →
  Forall valid_task (tasks (self st)) →
  Forall valid_task (tasks (self (add data need_save uuid4 st).2)).
Proof.
  intros Hd Hst. rewrite add_cases.
  destruct (validate_author (create_name data)) as [n|] eqn:Hn; [|done].
  cbn [snd updated_state self tasks]. apply valid_task_app; [done|].
  split; [|done]. cbn [created name].
  by rewrite Hn, (validate_author_Some _ _ Hn).
Qed.

Lemma update_keeps_valid task_id data need_save st :
  valid_update data →
  Forall valid_task (tasks (self st)) →
  Forall valid_task (tasks (self (update task_id data need_save st).2)).
Proof.
  intros Hd Hst.
  destruct (update_outcome task_id data need_save st)
    as [[e ->]|(pre & t & post & v & Htasks & Hv & ->)]; [done|].
  cbn [snd updated_state self tasks].
  rewrite Htasks in Hst. apply Forall_app in Hst as [Hpre Hpost].
  apply Forall_cons in Hpost as [_ Hpost].
  apply update_dict_validated in Hv as (_ & Hname & Hdate).
  apply Forall_app. split; [done|]. constructor; [|done].
  split; [done|]. by apply Hdate.
Qed.

Lemma delete_keeps_valid task_id need_save st :
  Forall valid_task (tasks (self st)) →
  Forall valid_task (tasks (self (delete task_id need_save st).2)).
Proof.
  intros Hst.
  destruct (delete_outcome task_id need_save st)
    as [[e ->]|(pre & t & post & Htasks & ->)]; [done|].
  cbn [snd updated_state self tasks].
  rewrite Htasks in Hst. apply Forall_app in Hst as [Hpre Hpost].
  apply Forall_cons in Hpost as [_ Hpost]. by apply Forall_app.
Qed.

(** X4. The three mutators keep the collection valid: when every record
    has a name that is not blank and a deadline that exists, so has every
    record after [add], after [update] and after [delete], whatever their
    arguments and their outcome (the deadline of a payload being a date
    that exists). *)
Theorem mutators_keep_records_valid (st : state) :
  Forall valid_task (tasks (self st)) →
  (∀ data need_save uuid4,
      valid_date (create_deadline data) = true →
      Forall valid_task (tasks (self (add data need_save uuid4 st).2)))
  ∧ (∀ task_id data need_save,
      valid_update data →
      Forall valid_task (tasks (self (update task_id data need_save st).2)))
  ∧ (∀ task_id need_save,
      Forall valid_task (tasks (self (delete task_id need_save st).2))).
Proof.
  intros Hst. split; [|split].
  - intros. by apply add_keeps_valid.
  - intros. by apply update_keeps_valid.
  - intros. by apply delete_keeps_valid.
Qed.

Lemma mutators_keep_records_valid_witness :
  let t1 := sample_task "a1" "Task 1" "test task" (Date 2024 12 21) high in
  let st := store [t1] in
  let data := payload "Task 2" "" study (Date 2024 2 29) low in
  let change := {| update_name := Some "Renamed"; update_description := None;
                   update_category := None;
                   update_deadline := Some (Date 2025 1 31);
                   update_priority := None; update_status := Some completed |} in
  Forall valid_task (tasks (self (add data false "b2" st).2))
  ∧ Forall valid_task (tasks (self (update (PyStr "A1") change false st).2))
  ∧ Forall valid_task (tasks (self (delete (PyStr "a1") false st).2)).
Proof.
  intros t1 st data change.
  destruct (mutators_keep_records_valid st) as (Hadd & Hupdate & Hdelete).
  { repeat constructor. }
  split; [|split].
  - apply Hadd. reflexivity.
  - apply Hupdate. intros d [= <-]. reflexivity.
  - apply Hdelete.
Defined.

(** ** The file after a mutation that saves *)

Lemma reload_updated_state (st : state) (l : list TaskRead) :
  Forall valid_task l →
  __init__ (file_name (self st)) (files (updated_state st true l))
  = Return (self (updated_state st true l)).
Proof.
  intros Hl. unfold __init__, _load_data, updated_state, files_after.
  cbn [files self]. rewrite lookup_insert_eq, validate_all by done. done.
Qed.

(** X7. The list in memory and the file agree after every mutation that
    saves.  From a valid collection, when [add], [update] or [delete]
    called with [need_save] set succeeds, a service built from the file
    afterwards is the service in memory: same path, same records, same
    order. *)
Theorem saved_mutation_reloads (st : state) :
  Forall valid_task (tasks (self st)) →
  (∀ data uuid4 r st',
      valid_date (create_deadline data) = true →
      add data true uuid4 st = (Return r, st') →
      __init__ (file_name (self st')) (files st') = Return (self st'))
  ∧ (∀ task_id data st',
      valid_update data →
      update task_id data true st = (Return (), st') →
      __init__ (file_name (self st')) (files st') = Return (self st'))
  ∧ (∀ task_id st',
      delete task_id true st = (Return (), st') →
      __init__ (file_name (self st')) (files st') = Return (self st')).
Proof.
  intros Hst. split; [|split].
  - intros data uuid4 r st' Hd Hrun.
    pose proof (add_keeps_valid data true uuid4 st Hd Hst) as Hv.
    rewrite add_cases in Hrun, Hv.
    destruct (validate_author (create_name data)); [|done].
    injection Hrun as _ <-. exact (reload_updated_state st _ Hv).
  - intros task_id data st' Hd Hrun.
    pose proof (update_keeps_valid task_id data true st Hd Hst) as Hv.
    destruct (update_outcome task_id data true st)
      as [[e He]|(pre & t & post & v & _ & _ & Hok)]; [congruence|].
    rewrite Hok in Hrun, Hv. injection Hrun as <-.
    exact (reload_updated_state st _ Hv).
  - intros task_id st' Hrun.
    pose proof (delete_keeps_valid task_id true st Hst) as Hv.
    destruct (delete_outcome task_id true st)
      as [[e He]|(pre & t & post & _ & Hok)]; [congruence|].
    rewrite Hok in Hrun, Hv. injection Hrun as <-.
    exact (reload_updated_state st _ Hv).
Qed.

Lemma saved_mutation_reloads_witness :
  let t1 := sample_task "a1" "Task 1" "test task" (Date 2024 12 21) high in
  let t2 := sample_task "b2" "Task 2" "" (Date 2024 12 22) low in
  let st := store [t1; t2] in
  let data := payload "Task 3" "123" personal (Date 2024 12 23) normal in
  let change := {| update_name := None; update_description := Some "done";
                   update_category := None; update_deadline := None;
                   update_priority := None; update_status := Some completed |} in
  __init__ "tasks.json" (files (add data true "c3" st).2)
  = Return (self (add data true "c3" st).2)
  ∧ __init__ "tasks.json" (files (update (PyStr "B2") change true st).2)
    = Return (self (update (PyStr "B2") change true st).2)
  ∧ __init__ "tasks.json" (files (delete (PyStr "A1") true st).2)
    = Return (self (delete (PyStr "A1") true st).2).
Proof.
  intros t1 t2 st data change.
  destruct (saved_mutation_reloads st) as (Hadd & Hupdate & Hdelete).
  { repeat constructor. }
  split; [|split].
  - apply (Hadd data "c3" (created data "c3")); reflexivity.
  - apply (Hupdate (PyStr "B2") change); [by intros d [=]|reflexivity].
  - apply (Hdelete (PyStr "A1")). reflexivity.
Defined.

(** ** Looking a record up after a mutation *)

Lemma run_seq {A B} (m : M A) (k : M B) st :
  (m;; k) st = match m st with
               | (Return _, st') => k st'
               | (Raise e, st') => (Raise e, st')
               end.
Proof. done. Qed.

Lemma get_by_id_run s st :
  get_by_id (PyStr s) st = (get_by_id_loop (PyStr s) (tasks (self st)), st).
Proof. done. Qed.

Lemma same_id_sym a b : same_id a b → same_id b a.
Proof. unfold same_id. congruence. Qed.

(** X8. A record that was just added is found by its id, in any case of
    the letters: after [add] with a name that is not blank and a fresh
    identifier (no record of the collection has it up to case),
    [get_by_id] on any text equal to the identifier up to case returns the
    new record. *)
Theorem add_then_get_by_id (st : state) (data : TaskCreate)
    (need_save : bool) (uuid4 s : string) :
  validate_author (create_name data) = Some (create_name data) →
  Forall (fun u => ¬ same_id s (id u)) (tasks (self st)) →
  same_id s uuid4 →
  (add data need_save uuid4;; get_by_id (PyStr s)) st
  = (Return (Some (created data uuid4)),
     updated_state st need_save (tasks (self st) ++ [created data uuid4])).
Proof.
  intros Hname Hfresh Hs. rewrite run_seq, add_cases, Hname, get_by_id_run.
  cbn [updated_state self tasks]. by rewrite get_by_id_loop_found.
Qed.

Lemma add_then_get_by_id_witness :
  let st := store [sample_task "a1" "Task 1" "test task" (Date 2024 12 21) high] in
  let data := payload "Test get task" "test get task" work (Date 2025 1 1) high in
  (add data false "3F2504E0-4f89-11d3-9a0c-0305e82c3301";;
   get_by_id (PyStr "3f2504e0-4F89-11D3-9A0C-0305E82C3301")) st
  = (Return (Some (created data "3F2504E0-4f89-11d3-9a0c-0305e82c3301")),
     updated_state st false
       (tasks (self st)
          ++ [created data "3F2504E0-4f89-11d3-9a0c-0305e82c3301"])).
Proof.
  intros st data. apply add_then_get_by_id.
  - reflexivity.
  - repeat constructor. vm_compute. discriminate.
  - reflexivity.
Defined.

(** X9. After an [update] that succeeds, [get_by_id] on the same id
    returns the record as updated: the first record with the id, with the
    fields of the payload written over. *)
Theorem update_then_get_by_id (st : state) (task_id : string)
    (data : TaskUpdate) (need_save : bool) (pre post : list TaskRead)
    (t : TaskRead) :
  tasks (self st) = pre ++ t :: post →
  Forall (fun u => ¬ same_id task_id (id u)) pre →
  same_id task_id (id t) →
  valid_task t →
  blank_name data = false →
  (update (PyStr task_id) data need_save;; get_by_id (PyStr task_id)) st
  = (Return (Some (overwrite data t)),
     updated_state st need_save (pre ++ overwrite data t :: post)).
Proof.
  intros Htasks Hpre Ht Hvalid Hblank.
  rewrite run_seq, (update_at st task_id data need_save pre post t) by done.
  unfold update_dict. rewrite model_validate_updated; [|done|].
  - rewrite get_by_id_run. cbn [updated_state self tasks].
    by rewrite get_by_id_loop_found.
  - unfold blank_name in Hblank. destruct Hvalid as [Hn _].
    destruct (update_name data) as [n|]; [|done]. simpl.
    apply bool_decide_eq_false in Hblank.
    by destruct (validate_author_cases n).
Qed.

Lemma update_then_get_by_id_witness :
  let t1 := sample_task "a1" "Task 1" "test task" (Date 2024 12 21) high in
  let t2 := sample_task "id-update" "Test update task" "test update task"
              (Date 2025 1 1) high in
  let data := {| update_name := Some "Updated name";
                 update_description := Some "new description";
                 update_category := None;
                 update_deadline := Some (Date 2024 12 20);
                 update_priority := None; update_status := None |} in
  let st := store [t1; t2] in
  (update (PyStr "ID-UPDATE") data false;; get_by_id (PyStr "ID-UPDATE")) st
  = (Return (Some (overwrite data t2)),
     updated_state st false ([t1] ++ overwrite data t2 :: [])).
Proof.
  intros t1 t2 data st.
  apply (update_then_get_by_id st "ID-UPDATE" data false [t1] [] t2).
  - reflexivity.
  - repeat constructor. vm_compute. discriminate.
  - reflexivity.
  - split; reflexivity.
  - reflexivity.
Defined.

(** X10. After a [delete] that succeeds, the id is gone when no other
    record had it: [get_by_id] returns [None], and a second [delete]
    raises [TaskDoesNotExists] and removes nothing more. *)
Theorem delete_then_not_found (st : state) (task_id : string)
    (need_save : bool) (pre post : list TaskRead) (t : TaskRead) :
  tasks (self st) = pre ++ t :: post →
  Forall (fun u => ¬ same_id task_id (id u)) (pre ++ post) →
  same_id task_id (id t) →
  (delete (PyStr task_id) need_save;; get_by_id (PyStr task_id)) st
  = (Return None, updated_state st need_save (pre ++ post))
  ∧ (delete (PyStr task_id) need_save;; delete (PyStr task_id) need_save) st
    = (Raise (TaskDoesNotExists (PyStr task_id)),
       updated_state st need_save (pre ++ post)).
Proof.
  intros Htasks Habs Ht.
  assert (Forall (fun u => ¬ same_id task_id (id u)) pre) as Hpre.
  { by apply Forall_app in Habs as [??]. }
  rewrite !run_seq, (delete_run st task_id need_save pre post t) by done.
  split.
  - rewrite get_by_id_run. cbn [updated_state self tasks].
    by rewrite get_by_id_loop_absent.
  - unfold delete, get_by_id. run. by rewrite get_by_id_loop_absent.
Qed.

Lemma delete_then_not_found_witness :
  let t1 := sample_task "a1" "Task 1" "test task" (Date 2024 12 21) high in
  let t2 := sample_task "B2" "Task 2" "" (Date 2024 12 22) normal in
  let st := store [t1; t2] in
  (delete (PyStr "b2") false;; get_by_id (PyStr "b2")) st
  = (Return None, updated_state st false ([t1] ++ []))
  ∧ (delete (PyStr "b2") false;; delete (PyStr "b2") false) st
    = (Raise (TaskDoesNotExists (PyStr "b2")),
       updated_state st false ([t1] ++ [])).
Proof.
  intros t1 t2 st. apply (delete_then_not_found st "b2" false [t1] [] t2).
  - reflexivity.
  - repeat constructor. vm_compute. discriminate.
  - reflexivity.
Defined.

(** ** Unique ids *)

(** X11. The ids stay unique up to case.  When no two records of the
    collection have the same id up to case, this still holds after [add]
    with a fresh identifier, after [update] and after [delete], whatever
    their other arguments and their outcome. *)
Theorem ids_stay_unique (st : state) :
  NoDup (lowered_ids (tasks (self st))) →
  (∀ data need_save uuid4,
      str_lower uuid4 ∉ lowered_ids (tasks (self st)) →
      NoDup (lowered_ids (tasks (self (add data need_save uuid4 st).2))))
  ∧ (∀ task_id data need_save,
      NoDup (lowered_ids (tasks (self (update task_id data need_save st).2))))
  ∧ (∀ task_id need_save,
      NoDup (lowered_ids (tasks (self (delete task_id need_save st).2)))).
Proof.
  intros Hst. split; [|split].
  - intros data need_save uuid4 Hfresh. rewrite add_cases.
    destruct (validate_author (create_name data)); [|done].
    cbn [snd updated_state self tasks]. unfold lowered_ids in *.
    rewrite fmap_app. apply NoDup_app. split; [done|]. split.
    + intros x Hx. cbn [fmap list_fmap created id].
      intros ->%list_elem_of_singleton. done.
    + apply NoDup_singleton.
  - intros task_id data need_save.
    destruct (update_outcome task_id data need_save st)
      as [[e ->]|(pre & t & post & v & Htasks & Hv & ->)]; [done|].
    cbn [snd updated_state self tasks].
    apply update_dict_validated in Hv as (Hid & _).
    unfold lowered_ids in *.
    rewrite Htasks, fmap_app, fmap_cons in Hst.
    by rewrite fmap_app, fmap_cons, Hid.
  - intros task_id need_save.
    destruct (delete_outcome task_id need_save st)
      as [[e ->]|(pre & t & post & Htasks & ->)]; [done|].
    cbn [snd updated_state self tasks]. unfold lowered_ids in *.
    rewrite Htasks in Hst. apply (sublist_NoDup _ _ Hst).
    apply fmap_sublist, sublist_app; [done|]. by apply sublist_cons.
Qed.

Lemma ids_stay_unique_witness :
  let t1 := sample_task "a1" "Task 1" "test task" (Date 2024 12 21) high in
  let t2 := sample_task "B2" "Task 2" "" (Date 2024 12 22) normal in
  let st := store [t1; t2] in
  let data := payload "Task 3" "123" work (Date 2024 12 23) normal in
  let change := {| update_name := Some "Renamed"; update_description := None;
                   update_category := None; update_deadline := None;
                   update_priority := None; update_status := None |} in
  NoDup (lowered_ids (tasks (self (add data false "C3" st).2)))
  ∧ NoDup (lowered_ids (tasks (self (update (PyStr "b2") change false st).2)))
  ∧ NoDup (lowered_ids (tasks (self (delete (PyStr "A1") false st).2))).
Proof.
  intros t1 t2 st data change.
  destruct (ids_stay_unique st) as (Hadd & Hupdate & Hdelete).
  { apply (bool_decide_unpack _). by vm_compute. }
  split; [|split].
  - apply Hadd. apply (bool_decide_unpack _). by vm_compute.
  - apply Hupdate.
  - apply Hdelete.
Defined.

(** ** The validators of [src/schemas.py] *)

Lemma lstrip_nil_iff s :
  Text.lstrip s = [] ↔ Forall (fun c => Text.is_space c = true) s.
Proof.
  split; [|apply lstrip_spaces].
  induction s as [|c s IH]; [done|]. simpl.
  destruct (Text.is_space c) eqn:Hc; [|done]. intros H. constructor; auto.
Qed.

Lemma lstrip_head s c r : Text.lstrip s = c :: r → Text.is_space c = false.
Proof.
  induction s as [|d s IH]; [done|]. simpl.
  destruct (Text.is_space d) eqn:Hd; [done|]. by intros [= <- _].
Qed.

Lemma Forall_rev_iff {A} (P : A → Prop) (l : list A) :
  Forall P (rev l) ↔ Forall P l.
Proof.
  rewrite !Forall_forall. split; intros H x Hx; apply H.
  - by apply list_elem_of_In, in_rev, list_elem_of_In in Hx.
  - by apply list_elem_of_In, in_rev, list_elem_of_In.
Qed.

Lemma strip_nil_iff s :
  Text.strip s = [] ↔ Forall (fun c => Text.is_space c = true) s.
Proof.
  unfold Text.strip. split.
  - intros H. apply (f_equal (@rev ascii)) in H.
    rewrite rev_involutive in H. simpl in H.
    apply lstrip_nil_iff in H. rewrite Forall_rev_iff in H.
    destruct (Text.lstrip s) as [|c r] eqn:E; [by apply lstrip_nil_iff|].
    apply lstrip_head in E. apply Forall_cons in H as [Hc _]. congruence.
  - intros H. by rewrite (lstrip_spaces _ H).
Qed.

(** X12. The validator of [name] rejects exactly the blank names: the
    empty text and the texts made of white space only.  Every other name is
    accepted and returned as it is, white space at its ends included. *)
Theorem validate_author_rejects_blank (value : string) :
  (validate_author value = None
   ↔ Forall (fun c => Text.is_space c = true) (list_ascii_of_string value))
  ∧ (validate_author value = Some value
     ↔ Exists (fun c => Text.is_space c = false) (list_ascii_of_string value)).
Proof.
  assert (validate_author value = None
          ↔ Forall (fun c => Text.is_space c = true)
              (list_ascii_of_string value)) as Hnone.
  { rewrite <- strip_nil_iff. unfold validate_author.
    by destruct (Text.strip _). }
  split; [done|]. split.
  - intros Hsome.
    destruct (decide (Exists (fun c => Text.is_space c = false)
                        (list_ascii_of_string value))) as [|Hno]; [done|].
    apply not_Exists_Forall in Hno; [|apply _].
    assert (validate_author value = None); [|congruence].
    apply Hnone. eapply Forall_impl; [exact Hno|].
    intros c Hc. simpl in Hc. by destruct (Text.is_space c).
  - intros Hex. destruct (validate_author_cases value) as [H|H]; [|done].
    apply Hnone in H. apply Exists_exists in Hex as (c & Hc & Hns).
    rewrite Forall_forall in H. apply H in Hc. congruence.
Qed.

(** ** Sorting and filtering *)

Section SortFilter.
Context {A K : Type} (key : A → K) (eqb lt : K → K → bool).
Context `{!StrictTotal eqb lt}.

Lemma insert_sorted_front x l :
  match l with
  | [] => True
  | y :: _ => lt (key y) (key x) = false
  end →
  insert_sorted key lt x l = x :: l.
Proof. destruct l as [|y l]; [done|]. simpl. by intros ->. Qed.

Lemma insert_sorted_filter (f : A → bool) x l :
  StronglySorted (key_le key lt) l →
  List.filter f (insert_sorted key lt x l)
  = if f x then insert_sorted key lt x (List.filter f l) else List.filter f l.
Proof.
  induction 1 as [|y l Hl IH Hy]; [simpl; by destruct (f x)|].
  cbn [insert_sorted]. destruct (lt (key y) (key x)) eqn:Hyx.
  - cbn [List.filter]. rewrite IH.
    destruct (f y), (f x); try done. cbn [insert_sorted]. by rewrite Hyx.
  - cbn [List.filter]. destruct (f x); [|done]. f_equal.
    symmetry. apply insert_sorted_front.
    destruct (f y); [done|].
    destruct (List.filter f l) as [|z m] eqn:E; [done|].
    assert (z ∈ l) as Hz.
    { apply list_elem_of_In, (proj1 (filter_In f z l)).
      rewrite E. by left. }
    rewrite Forall_forall in Hy. apply Hy in Hz. unfold key_le in Hz.
    by apply (ltb_false_trans eqb lt _ (key y)).
Qed.

(** Filtering a sorted list is sorting the filtered list. *)
Lemma sorted_filter (f : A → bool) l :
  List.filter f (sorted key lt l) = sorted key lt (List.filter f l).
Proof.
  induction l as [|x l IH]; [done|].
  cbn [sorted foldr List.filter]. fold (sorted key lt l).
  rewrite insert_sorted_filter by apply (sorted_strongly key eqb lt).
  rewrite IH. by destruct (f x).
Qed.

(** A list in order is returned as it is. *)
Lemma sorted_fixed l :
  StronglySorted (key_le key lt) l → sorted key lt l = l.
Proof.
  induction 1 as [|x l Hl IH Hx]; [done|].
  cbn [sorted foldr]. fold (sorted key lt l). rewrite IH.
  apply insert_sorted_front. destruct l as [|y l']; [done|].
  by apply Forall_cons in Hx as [Hxy _].
Qed.

End SortFilter.

(** X14. [find] returns the list of [get_all] with the records that no
    keyword hits taken out: the records found stand in the order they have
    in the full canonical list. *)
Theorem find_is_get_all_filtered (st : state) (query : string) :
  ∃ every,
    get_all st = (Return every, st)
    ∧ find query st
      = (Return (filter (keyword_hit (keywords query)) every), st).
Proof.
  eexists. split; [reflexivity|].
  unfold find. run. do 2 f_equal.
  rewrite <- (sorted_filter _ tuple_eqb tuple_ltb).
  apply List_filter_prop. intros t. apply found_keyword_hit.
Qed.

(** ** The case of the letters of a query *)

Lemma lower_char_facts c :
  Text.is_word (Text.lower_char c) = Text.is_word c
  ∧ Text.is_space (Text.lower_char c) = Text.is_space c
  ∧ Ascii.eqb (Text.lower_char c) Text.space = Ascii.eqb c Text.space
  ∧ Text.lower_char (Text.lower_char c) = Text.lower_char c
  ∧ (Text.is_word c = true → Text.is_space c = false).
Proof. by destruct c as [[] [] [] [] [] [] [] []]; vm_compute. Qed.

Lemma sub_not_word_space_lower s :
  Re.sub_not_word_space (Text.lower s) = Text.lower (Re.sub_not_word_space s).
Proof.
  unfold Re.sub_not_word_space, Text.lower.
  induction s as [|c s IH]; [done|]. simpl.
  destruct (lower_char_facts c) as (-> & -> & _).
  destruct (Text.is_word c || Text.is_space c); simpl; by rewrite IH.
Qed.

Lemma sub_spaces_lower s :
  Re.sub_spaces (Text.lower s) = Text.lower (Re.sub_spaces s).
Proof.
  induction s as [|c s IH]; [done|].
  destruct s as [|d s]; [done|].
  change (Text.lower (c :: d :: s))
    with (Text.lower_char c :: Text.lower_char d :: Text.lower s).
  change (Text.lower (d :: s))
    with (Text.lower_char d :: Text.lower s) in IH.
  rewrite !sub_spaces_cons.
  destruct (lower_char_facts c) as (_ & _ & -> & _).
  destruct (lower_char_facts d) as (_ & _ & -> & _).
  destruct (Ascii.eqb c Text.space && Ascii.eqb d Text.space).
  - exact IH.
  - rewrite IH. done.
Qed.

Lemma lstrip_lower s : Text.lstrip (Text.lower s) = Text.lower (Text.lstrip s).
Proof.
  unfold Text.lower. induction s as [|c s IH]; [done|]. simpl.
  destruct (lower_char_facts c) as (_ & -> & _).
  by destruct (Text.is_space c).
Qed.

Lemma strip_lower s : Text.strip (Text.lower s) = Text.lower (Text.strip s).
Proof.
  unfold Text.strip. rewrite lstrip_lower. unfold Text.lower at 1.
  rewrite <- map_rev. fold (Text.lower (rev (Text.lstrip s))).
  rewrite lstrip_lower. unfold Text.lower. by rewrite map_rev.
Qed.

Lemma split_lower s :
  Text.split Text.space (Text.lower s)
  = Text.lower <$> Text.split Text.space s.
Proof.
  induction s as [|c s IH]; [done|].
  cbn [Text.lower map Text.split]. fold (Text.lower s).
  destruct (lower_char_facts c) as (_ & _ & -> & _). rewrite IH.
  destruct (Ascii.eqb c Text.space); [done|].
  by destruct (Text.split Text.space s).
Qed.

Lemma keywords_lower query :
  keywords (str_lower query) = Text.lower <$> keywords query.
Proof.
  unfold keywords, str_lower. rewrite list_ascii_of_string_of_list_ascii.
  by rewrite sub_not_word_space_lower, sub_spaces_lower, strip_lower,
    split_lower.
Qed.

Lemma match_here_lower kw p prev text :
  Re.match_here (map Re.Literal (Text.lower kw) ++ p) prev text
  = Re.match_here (map Re.Literal kw ++ p) prev text.
Proof.
  revert prev text. induction kw as [|c kw IH]; intros prev text; [done|].
  cbn [Text.lower map app Re.match_here]. fold (Text.lower kw).
  destruct text as [|d text]; [done|]. rewrite IH. f_equal.
  unfold Re.literal_eq. by destruct (lower_char_facts c) as (_ & _ & _ & -> & _).
Qed.

Lemma search_from_lower kws prev text :
  Re.search_from (Re.join_alternatives (Text.lower <$> kws)) prev text
  = Re.search_from (Re.join_alternatives kws) prev text.
Proof.
  assert (∀ prev text,
    existsb (fun alt => Re.match_here alt prev text)
      (Re.join_alternatives (Text.lower <$> kws))
    = existsb (fun alt => Re.match_here alt prev text)
        (Re.join_alternatives kws)) as Hex.
  { clear. intros prev text. unfold Re.join_alternatives.
    induction kws as [|kw kws IH]; [done|].
    rewrite fmap_cons. cbn [map existsb]. rewrite IH. f_equal.
    unfold Re.bounded_word. cbn [Re.match_here]. f_equal.
    apply match_here_lower. }
  revert prev. induction text as [|d text IH]; intros prev;
    cbn [Re.search_from]; rewrite Hex; [done|]. by rewrite IH.
Qed.

(** X15. The case of the letters of the query does not matter: [find]
    returns for the lower-cased query what it returns for the query. *)
Theorem find_ignores_query_case (st : state) (query : string) :
  find (str_lower query) st = find query st.
Proof.
  unfold find. rewrite keywords_lower. run. do 3 f_equal.
  apply filter_ext. intros t. unfold found, Re.findall_nonempty.
  by rewrite !search_from_lower.
Qed.

(** ** No empty keyword *)

Lemma sub_spaces_head d s :
  d ≠ Text.space → Re.sub_spaces (d :: s) = d :: Re.sub_spaces s.
Proof.
  intros Hd. destruct s as [|e s]; [done|]. rewrite sub_spaces_cons.
  apply Ascii.eqb_neq in Hd. by rewrite Hd.
Qed.

Lemma no_double_space_cons c l :
  no_double_space l →
  (c = Text.space → head l ≠ Some Text.space) →
  no_double_space (c :: l).
Proof.
  intros Hl Hc [|x l1] l2; simpl.
  - intros [= -> ->]. by apply Hc.
  - intros [= -> ->]. by apply (Hl l1 l2).
Qed.

Lemma no_double_space_tail c l : no_double_space (c :: l) → no_double_space l.
Proof. intros H l1 l2 ->. by apply (H (c :: l1) l2). Qed.

Lemma sub_spaces_no_double s : no_double_space (Re.sub_spaces s).
Proof.
  induction s as [|c s IH]; [by intros [|??] ?|].
  destruct s as [|d s]; [by intros [|? [|??]] ?|].
  rewrite sub_spaces_cons.
  destruct (Ascii.eqb c Text.space && Ascii.eqb d Text.space) eqn:E; [done|].
  apply no_double_space_cons; [done|]. intros ->.
  rewrite Ascii.eqb_refl in E. simpl in E. apply Ascii.eqb_neq in E.
  rewrite sub_spaces_head by done. simpl. congruence.
Qed.

Lemma lstrip_suffix s :
  ∃ ws, s = ws ++ Text.lstrip s.
Proof.
  induction s as [|c s [ws IH]]; [by exists []|]. simpl.
  destruct (Text.is_space c); [|by exists []].
  exists (c :: ws). simpl. by rewrite <- IH.
Qed.

Lemma strip_infix s : ∃ a b, s = a ++ Text.strip s ++ b.
Proof.
  destruct (lstrip_suffix s) as [a Ha].
  destruct (lstrip_suffix (rev (Text.lstrip s))) as [b Hb].
  exists a, (rev b). unfold Text.strip.
  rewrite <- rev_app_distr, <- Hb, rev_involutive. exact Ha.
Qed.

Lemma strip_no_double s : no_double_space s → no_double_space (Text.strip s).
Proof.
  intros Hs l1 l2 E. destruct (strip_infix s) as (a & b & Hab).
  apply (Hs (a ++ l1) (l2 ++ b)). rewrite Hab at 1. rewrite E.
  by rewrite <- !app_assoc.
Qed.

Lemma strip_head s c r : Text.strip s = c :: r → Text.is_space c = false.
Proof.
  intros E. destruct (lstrip_suffix (rev (Text.lstrip s))) as [b Hb].
  apply (f_equal (@rev ascii)) in Hb.
  rewrite rev_involutive, rev_app_distr in Hb.
  fold (Text.strip s) in Hb. rewrite E in Hb. simpl in Hb.
  by apply lstrip_head in Hb.
Qed.

Lemma strip_last s c r : Text.strip s = r ++ [c] → Text.is_space c = false.
Proof.
  unfold Text.strip. intros E. apply (f_equal (@rev ascii)) in E.
  rewrite rev_involutive, rev_app_distr in E. simpl in E.
  by apply lstrip_head in E.
Qed.

Lemma lstrip_keeps s c :
  c ∈ s → Text.is_space c = false → c ∈ Text.lstrip s.
Proof.
  intros Hc Hns. induction s as [|d s IH]; [done|]. simpl.
  destruct (Text.is_space d) eqn:Hd; [|done].
  apply elem_of_cons in Hc as [->|Hc]; [congruence|auto].
Qed.

Lemma elem_of_rev {A} (x : A) l : x ∈ rev l ↔ x ∈ l.
Proof. by rewrite !list_elem_of_In, <- in_rev. Qed.

Lemma strip_keeps s c :
  c ∈ s → Text.is_space c = false → c ∈ Text.strip s.
Proof.
  intros Hc Hns. unfold Text.strip.
  apply elem_of_rev, lstrip_keeps; [|done].
  by apply elem_of_rev, lstrip_keeps.
Qed.

Lemma sub_spaces_keeps s c :
  c ∈ s → c ≠ Text.space → c ∈ Re.sub_spaces s.
Proof.
  intros Hc Hns. induction s as [|d s IH]; [done|].
  destruct s as [|e s]; [done|]. rewrite sub_spaces_cons.
  destruct (Ascii.eqb d Text.space && Ascii.eqb e Text.space) eqn:E.
  - apply andb_true_iff in E as [Hd _]. apply Ascii.eqb_eq in Hd as ->.
    apply elem_of_cons in Hc as [->|Hc]; [done|auto].
  - apply elem_of_cons in Hc as [->|Hc]; [by left|]. right. auto.
Qed.

Lemma split_cons sep s : ∃ w ws, Text.split sep s = w :: ws.
Proof.
  destruct s as [|c s]; [by eexists _, _|]. simpl.
  destruct (Ascii.eqb c sep); [by eexists _, _|].
  destruct (Text.split sep s); by eexists _, _.
Qed.

Lemma split_pieces_not_empty l :
  no_double_space l → last l ≠ Some Text.space → l ≠ [] →
  Forall (fun w => w ≠ []) (tail (Text.split Text.space l))
  ∧ (head l ≠ Some Text.space →
     Forall (fun w => w ≠ []) (Text.split Text.space l)).
Proof.
  induction l as [|c rest IH]; [done|]. intros Hnd Hlast _.
  assert (rest ≠ [] → last rest ≠ Some Text.space) as Hlast'.
  { intros Hne. destruct rest as [|d r]; [done|]. by rewrite last_cons_cons in Hlast. }
  pose proof (no_double_space_tail _ _ Hnd) as Hnd'.
  assert (Forall (fun w => w ≠ []) (tail (Text.split Text.space (c :: rest))))
    as Htail.
  { cbn [Text.split]. destruct (Ascii.eqb c Text.space) eqn:Hc.
    - apply Ascii.eqb_eq in Hc as ->. cbn [tail].
      destruct rest as [|d r]; [done|].
      apply IH; [done|by apply Hlast'|done|].
      simpl. intros [= ->]. by apply (Hnd [] r).
    - destruct (split_cons Text.space rest) as (w & ws & E). rewrite E.
      cbn [tail]. destruct rest as [|d r].
      + simpl in E. by injection E as <- <-.
      + destruct IH as [IH _]; [done|by apply Hlast'|done|].
        by rewrite E in IH. }
  split; [done|]. intros Hhead.
  cbn [Text.split] in *. destruct (Ascii.eqb c Text.space) eqn:Hc.
  - apply Ascii.eqb_eq in Hc as ->. done.
  - destruct (Text.split Text.space rest) as [|w ws]; by constructor.
Qed.

Lemma keywords_not_empty query :
  has_word_char query → Forall (fun kw => kw ≠ []) (keywords query).
Proof.
  intros Hq. unfold has_word_char in Hq.
  apply Exists_exists in Hq as (c & Hc & Hw).
  destruct (lower_char_facts c) as (_ & _ & _ & _ & Hns).
  specialize (Hns Hw). unfold keywords.
  set (s := Re.sub_spaces (Re.sub_not_word_space (list_ascii_of_string query))).
  assert (c ∈ Text.strip s) as Hin.
  { apply strip_keeps; [|done]. apply sub_spaces_keeps; [|by intros ->].
    apply list_elem_of_In, filter_In. split; [by apply list_elem_of_In|].
    by rewrite Hw. }
  pose proof (strip_no_double s (sub_spaces_no_double _)) as Hnd.
  destruct (split_pieces_not_empty (Text.strip s)) as [_ Hall]; [done| | |].
  - destruct (Text.strip s) as [|x r _] eqn:E using rev_ind; [done|].
    rewrite last_snoc. intros [= ->]. by apply strip_last in E.
  - intros E. rewrite E in Hin. by apply elem_of_nil in Hin.
  - apply Hall. destruct (Text.strip s) as [|x r] eqn:E; [done|].
    simpl. intros [= ->]. by apply strip_head in E.
Qed.

(** X16. A query that holds a word character never gives an empty
    keyword, however its spaces and its punctuation stand: the pattern
    that matches every text with a word character is built for the queries
    without a word character only. *)
Theorem keywords_of_worded_query_not_empty (query : string) :
  has_word_char query →
  Forall (fun kw => kw ≠ []) (keywords query)
  ∧ keywords query ≠ [[]].
Proof.
  intros Hq. pose proof (keywords_not_empty query Hq) as H.
  split; [done|]. intros E. rewrite E in H.
  by apply Forall_cons in H as [? _].
Qed.

Lemma keywords_of_worded_query_not_empty_witness :
  Forall (fun kw => kw ≠ []) (keywords "  %get  &  updated!  ")
  ∧ keywords "  %get  &  updated!  " ≠ [[]].
Proof.
  apply keywords_of_worded_query_not_empty.
  apply (bool_decide_unpack _). by vm_compute.
Defined.

(** ** How the filters compose *)

Lemma filter_run_category c st :
  get_by_category c st
  = (Return (filter (fun t => category_value (category t) = c)
               (tasks (self st))), st).
Proof.
  unfold get_by_category. run. do 2 f_equal. apply List_filter_prop.
  intros t. rewrite String.eqb_eq. split; congruence.
Qed.

Lemma filter_run_status s st :
  get_by_status s st
  = (Return (filter (fun t => status_value (status t) = s)
               (tasks (self st))), st).
Proof.
  unfold get_by_status. run. do 2 f_equal. apply List_filter_prop.
  intros t. rewrite String.eqb_eq. split; congruence.
Qed.

Lemma filter_run_both c s st :
  get_by_category_and_status c s st
  = (Return (filter (fun t => category_value (category t) = c
                              ∧ status_value (status t) = s)
               (tasks (self st))), st).
Proof.
  unfold get_by_category_and_status. run. do 2 f_equal.
  apply List_filter_prop.
  intros t. rewrite andb_true_iff, !String.eqb_eq.
  split; intros [??]; split; congruence.
Qed.

(** X17. [get_by_category_and_status] is the one filter applied to the
    result of the other, in either order: the records it returns are those
    of [get_by_category] that have the status, and those of
    [get_by_status] that have the category, in the same order. *)
Theorem category_and_status_compose (st : state) (c s : string) :
  ∃ by_category by_status,
    get_by_category c st = (Return by_category, st)
    ∧ get_by_status s st = (Return by_status, st)
    ∧ get_by_category_and_status c s st
      = (Return (filter (fun t => status_value (status t) = s) by_category),
         st)
    ∧ get_by_category_and_status c s st
      = (Return (filter (fun t => category_value (category t) = c) by_status),
         st).
Proof.
  eexists _, _. split; [apply filter_run_category|].
  split; [apply filter_run_status|].
  rewrite filter_run_both, !list_filter_filter.
  split; do 2 f_equal; apply list_filter_iff; tauto.
Qed.

(** X18. Every record has exactly one status and one category of the
    enums: the results of [get_by_status] for the two statuses, put
    together, are a permutation of the collection, and so are the results
    of [get_by_category] for the three categories. *)
Theorem filters_partition_collection (st : state) :
  ∃ finished open at_work at_study at_home,
    get_by_status (status_value completed) st = (Return finished, st)
    ∧ get_by_status (status_value not_completed) st = (Return open, st)
    ∧ get_by_category (category_value work) st = (Return at_work, st)
    ∧ get_by_category (category_value study) st = (Return at_study, st)
    ∧ get_by_category (category_value personal) st = (Return at_home, st)
    ∧ finished ++ open ≡ₚ tasks (self st)
    ∧ at_work ++ at_study ++ at_home ≡ₚ tasks (self st).
Proof.
  eexists _, _, _, _, _.
  repeat (split; [first [apply filter_run_status|apply filter_run_category]|]).
  split.
  - induction (tasks (self st)) as [|t l IH]; [done|].
    rewrite !filter_cons. destruct (status t); simpl.
    + by rewrite IH.
    + by rewrite <- Permutation_middle, IH.
  - induction (tasks (self st)) as [|t l IH]; [done|].
    rewrite !filter_cons. destruct (category t); simpl.
    + by rewrite IH.
    + by rewrite <- Permutation_middle, IH.
    + rewrite app_assoc, <- Permutation_middle, <- app_assoc. by rewrite IH.
Qed.

(** ** [save_data] *)

(** X19. A [save_data] that succeeds overwrites the file completely: it
    leaves the service as it is, writes at the path of the service one
    object per record, in the order of the collection, each with exactly
    the seven members of a task, and touches no other file; what the file
    held before does not matter, and a second save that succeeds changes
    nothing more.  The encoder makes every record serializable: dumping
    the collection raises no [TypeError]. *)
Theorem save_data_overwrites_file (st st' : state) :
  save_data st = (Return (), st') →
  self st' = self st
  ∧ files st' !! file_name (self st)
    = Some (JsonFile (json_of_task <$> tasks (self st)))
  ∧ (∀ p, p ≠ file_name (self st) → files st' !! p = files st !! p)
  ∧ Forall (fun o : gmap string string => dom o = list_to_set task_fields)
      (json_of_task <$> tasks (self st))
  ∧ mapM (json_object ∘ encoder_default) (tasks (self st))
    = Return (json_of_task <$> tasks (self st))
  ∧ (∀ content st'',
       save_data (with_file st content) = (Return (), st'') → st'' = st')
  ∧ (∀ st'', (save_data;; save_data) st = (Return (), st'') → st'' = st').
Proof.
  rewrite save_data_run. intros [= <-].
  cbn [self files files_after].
  split; [done|]. split; [apply lookup_insert_eq|].
  split; [by intros p Hp; rewrite lookup_insert_ne|].
  split; [|split; [apply dump_all|split]].
  - apply Forall_fmap, Forall_true. intros t. reflexivity.
  - intros content st''. rewrite save_data_run. intros [= <-].
    unfold with_file, files_after. cbn [self files].
    by rewrite insert_insert_eq.
  - intros st''. rewrite run_seq, !save_data_run. intros [= <-].
    unfold files_after. cbn [self files]. by rewrite insert_insert_eq.
Qed.

Lemma save_data_overwrites_file_witness :
  let t1 := sample_task "a1" "Task 1" "test task" (Date 2024 12 21) high in
  let t2 := sample_task "b2" "Task 2" "" (Date 2024 12 22) low in
  let st := with_file (store [t1; t2]) MalformedFile in
  let st' := (save_data st).2 in
  self st' = self st
  ∧ files st' !! file_name (self st) = Some (JsonFile (json_of_task <$> [t1; t2]))
  ∧ (∀ st'', (save_data;; save_data) st = (Return (), st'') → st'' = st').
Proof.
  intros t1 t2 st st'.
  destruct (save_data_overwrites_file st st' eq_refl)
    as (Hself & Hfile & _ & _ & _ & _ & Htwice).
  split; [exact Hself|]. split; [exact Hfile|exact Htwice].
Defined.

(** ** [get_by_id] under unique ids *)

Lemma NoDup_fmap_eq {A B} (f : A → B) (l : list A) x y :
  NoDup (f <$> l) → x ∈ l → y ∈ l → f x = f y → x = y.
Proof.
  intros Hnd Hx Hy Hf.
  apply list_elem_of_lookup in Hx as [i Hi].
  apply list_elem_of_lookup in Hy as [j Hj].
  assert (i = j) as ->; [|congruence].
  apply (NoDup_lookup (f <$> l) i j (f x)); [done| |].
  - by rewrite list_lookup_fmap, Hi.
  - by rewrite list_lookup_fmap, Hj, Hf.
Qed.

(** X20. When the ids of the collection are unique up to case,
    [get_by_id] is not ambiguous: for every record of the collection,
    looking up any text equal to its id up to case returns that very
    record. *)
Theorem get_by_id_finds_the_record (st : state) (s : string) (t : TaskRead) :
  NoDup (lowered_ids (tasks (self st))) →
  t ∈ tasks (self st) →
  same_id s (id t) →
  get_by_id (PyStr s) st = (Return (Some t), st).
Proof.
  intros Hnd Ht Hs. rewrite get_by_id_run.
  destruct (get_by_id_loop_text s (tasks (self st))) as ([u|] & -> & H).
  - destruct H as (pre & post & Htasks & Hu & _).
    assert (u = t) as ->; [|done].
    apply (NoDup_fmap_eq (fun t => str_lower (id t)) (tasks (self st)));
      [done| |done|].
    + rewrite Htasks. apply elem_of_app. right. by left.
    + unfold same_id in *. congruence.
  - rewrite Forall_forall in H. by destruct (H t Ht).
Qed.

Lemma get_by_id_finds_the_record_witness :
  let t1 := sample_task "a1" "Task 1" "test task" (Date 2024 12 21) high in
  let t2 := sample_task "B2" "Task 2" "" (Date 2024 12 22) normal in
  let st := store [t1; t2] in
  get_by_id (PyStr "b2") st = (Return (Some t2), st).
Proof.
  intros t1 t2 st. apply get_by_id_finds_the_record.
  - apply (bool_decide_unpack _). by vm_compute.
  - apply (bool_decide_unpack _). by vm_compute.
  - reflexivity.
Defined.

(** ** [update] with no field, and [update] twice *)

Lemma update_run (st : state) (task_id : string) (data : TaskUpdate)
    (need_save : bool) (pre post : list TaskRead) (t : TaskRead) :
  tasks (self st) = pre ++ t :: post →
  Forall (fun u => ¬ same_id task_id (id u)) pre →
  same_id task_id (id t) →
  valid_task t →
  blank_name data = false →
  update (PyStr task_id) data need_save st
  = (Return (), updated_state st need_save (pre ++ overwrite data t :: post)).
Proof.
  intros Htasks Hpre Ht Hvalid Hblank.
  rewrite (update_at st task_id data need_save pre post t) by done.
  unfold update_dict. rewrite model_validate_updated; [done|done|].
  unfold blank_name in Hblank. destruct Hvalid as [Hn _].
  destruct (update_name data) as [n|]; [|done]. simpl.
  apply bool_decide_eq_false in Hblank.
  by destruct (validate_author_cases n).
Qed.

(** X21. An [update] that gives no field changes no record: for an id of
    the collection it succeeds and leaves the collection as it is, record
    by record; only the file is written again when saving is asked for. *)
Theorem update_without_fields_changes_nothing (st : state)
    (task_id : string) (need_save : bool) (pre post : list TaskRead)
    (t : TaskRead) :
  tasks (self st) = pre ++ t :: post →
  Forall (fun u => ¬ same_id task_id (id u)) pre →
  same_id task_id (id t) →
  valid_task t →
  update (PyStr task_id) no_fields need_save st
  = (Return (), updated_state st need_save (tasks (self st))).
Proof.
  intros Htasks Hpre Ht Hvalid.
  rewrite (update_run st task_id no_fields need_save pre post t) by done.
  rewrite Htasks. by destruct t.
Qed.

Lemma update_without_fields_changes_nothing_witness :
  let t1 := sample_task "a1" "Task 1" "test task" (Date 2024 12 21) high in
  let t2 := sample_task "B2" "Task 2" "" (Date 2024 12 22) normal in
  let st := store [t1; t2] in
  update (PyStr "b2") no_fields true st
  = (Return (), updated_state st true (tasks (self st))).
Proof.
  intros t1 t2 st.
  apply (update_without_fields_changes_nothing st "b2" true [t1] [] t2).
  - reflexivity.
  - repeat constructor. vm_compute. discriminate.
  - reflexivity.
  - split; reflexivity.
Defined.

Lemma overwrite_twice data t : overwrite data (overwrite data t) = overwrite data t.
Proof.
  by destruct data as [[n|] [ds|] [c|] [dl|] [p|] [s|]].
Qed.

Lemma updated_state_twice st need_save l :
  updated_state (updated_state st need_save l) need_save l
  = updated_state st need_save l.
Proof.
  unfold updated_state, files_after. cbn [self files file_name].
  destruct need_save; [|done]. by rewrite insert_insert_eq.
Qed.

(** X22. [update] is idempotent: the same successful update made a
    second time changes nothing more, neither in the collection nor in the
    file. *)
Theorem update_twice_is_update_once (st : state) (task_id : string)
    (data : TaskUpdate) (need_save : bool) (pre post : list TaskRead)
    (t : TaskRead) :
  tasks (self st) = pre ++ t :: post →
  Forall (fun u => ¬ same_id task_id (id u)) pre →
  same_id task_id (id t) →
  valid_task t →
  valid_update data →
  blank_name data = false →
  (update (PyStr task_id) data need_save;;
   update (PyStr task_id) data need_save) st
  = update (PyStr task_id) data need_save st.
Proof.
  intros Htasks Hpre Ht Hvalid Hdata Hblank.
  pose proof (update_keeps_valid (PyStr task_id) data need_save st Hdata)
    as Hkeep.
  rewrite run_seq.
  rewrite (update_run st task_id data need_save pre post t) in * by done.
  cbn [snd updated_state self tasks] in Hkeep.
  rewrite (update_run _ task_id data need_save pre post (overwrite data t));
    [|done|done|done| |done].
  - by rewrite overwrite_twice, updated_state_twice.
  - assert (valid_task t ∧ Forall valid_task (pre ++ overwrite data t :: post)
            → valid_task (overwrite data t)) as Hov.
    { intros [_ H]. apply Forall_app in H as [_ H].
      by apply Forall_cons in H as [? _]. }
    destruct (model_validate_outcome (update_dict t data)) as [[v Hv]|Hv].
    + pose proof Hv as Hv'. unfold update_dict in Hv'.
      rewrite model_validate_updated in Hv'; [|done|].
      * injection Hv' as <-.
        apply update_dict_validated in Hv as (_ & Hn & Hd).
        split; [done|by apply Hd].
      * unfold blank_name in Hblank. destruct Hvalid as [Hn _].
        destruct (update_name data) as [n|]; [|done]. simpl.
        apply bool_decide_eq_false in Hblank.
        by destruct (validate_author_cases n).
    + unfold update_dict in Hv. rewrite model_validate_updated in Hv; [done|done|].
      unfold blank_name in Hblank. destruct Hvalid as [Hn _].
      destruct (update_name data) as [n|]; [|done]. simpl.
      apply bool_decide_eq_false in Hblank.
      by destruct (validate_author_cases n).
Qed.

Lemma update_twice_is_update_once_witness :
  let t1 := sample_task "a1" "Task 1" "test task" (Date 2024 12 21) high in
  let t2 := sample_task "B2" "Task 2" "" (Date 2024 12 22) normal in
  let data := {| update_name := Some "Task two"; update_description := None;
                 update_category := None;
                 update_deadline := Some (Date 2025 1 31);
                 update_priority := Some low;
                 update_status := Some completed |} in
  let st := store [t1; t2] in
  (update (PyStr "b2") data true;; update (PyStr "b2") data true) st
  = update (PyStr "b2") data true st.
Proof.
  intros t1 t2 data st.
  apply (update_twice_is_update_once st "b2" data true [t1] [] t2).
  - reflexivity.
  - repeat constructor. vm_compute. discriminate.
  - reflexivity.
  - split; reflexivity.
  - intros d [= <-]. reflexivity.
  - reflexivity.
Defined.

(** ** The order of [get_all] and the order of insertion *)

Lemma strongly_sorted_unique {A} (R : A → A → Prop) (l1 l2 : list A) :
  (∀ x y, x ∈ l1 → y ∈ l1 → R x y → R y x → x = y) →
  StronglySorted R l1 → StronglySorted R l2 → l1 ≡ₚ l2 → l1 = l2.
Proof.
  revert l2. induction l1 as [|x l1 IH]; intros l2 Hanti H1 H2 Hperm.
  - by apply Permutation_nil_l in Hperm.
  - destruct l2 as [|y l2]; [by apply Permutation_nil_r in Hperm|].
    apply StronglySorted_inv in H1 as [H1 Hx].
    apply StronglySorted_inv in H2 as [H2 Hy].
    rewrite Forall_forall in Hx, Hy.
    assert (x = y) as <-.
    { assert (x ∈ y :: l2) as Hin1 by (rewrite <- Hperm; left).
      assert (y ∈ x :: l1) as Hin2 by (rewrite Hperm; left).
      apply elem_of_cons in Hin1 as [?|Hin1]; [done|].
      apply elem_of_cons in Hin2 as [?|Hin2]; [done|].
      apply Hanti; [left|by right| |].
      - by apply Hx.
      - by apply Hy. }
    f_equal. apply IH; [|done|done|by apply Permutation_cons_inv in Hperm].
    intros a b Ha Hb. apply Hanti; by right.
Qed.

Section SortUnique.
Context {A K : Type} (key : A → K) (eqb lt : K → K → bool).
Context `{!StrictTotal eqb lt}.

Lemma sorted_of_permutation (l1 l2 : list A) :
  l1 ≡ₚ l2 → NoDup (key <$> l1) → sorted key lt l1 = sorted key lt l2.
Proof.
  intros Hperm Hnd.
  apply (strongly_sorted_unique (key_le key lt)).
  - intros x y Hx Hy Hxy Hyx. unfold key_le in *.
    rewrite sorted_perm in Hx, Hy.
    apply (NoDup_fmap_eq key l1); [done|done|done|].
    by apply (ltb_connex (ltb := lt)).
  - by apply (sorted_strongly key eqb lt).
  - by apply (sorted_strongly key eqb lt).
  - by rewrite !sorted_perm.
Qed.

End SortUnique.

(** X23. What [get_all] returns does not depend on the order in which the
    records were added, as long as no two records have the same sorting
    key: two collections with the same records give the same list. *)
Theorem get_all_ignores_insertion_order (st1 st2 : state) :
  tasks (self st1) ≡ₚ tasks (self st2) →
  NoDup (_basic_sorting_key <$> tasks (self st1)) →
  fst (get_all st1) = fst (get_all st2).
Proof.
  intros Hperm Hnd. unfold get_all. run. f_equal.
  by apply (sorted_of_permutation _ tuple_eqb tuple_ltb).
Qed.

Lemma get_all_ignores_insertion_order_witness :
  let t1 := sample_task "a1" "Task 1" "test task" (Date 2024 12 21) high in
  let t2 := sample_task "b2" "Task 2" "" (Date 2024 12 22) normal in
  let t3 := sample_task "c3" "Task 3" "" (Date 2024 12 20) normal in
  fst (get_all (store [t1; t2; t3])) = fst (get_all (store [t3; t2; t1])).
Proof.
  intros t1 t2 t3.
  apply (get_all_ignores_insertion_order
           (store [t1; t2; t3]) (store [t3; t2; t1])).
  - cbn [store self tasks]. apply (bool_decide_unpack _). by vm_compute.
  - cbn [store self tasks]. apply (bool_decide_unpack _). by vm_compute.
Defined.

(** ** A query of one word *)

Lemma word_not_space c : Text.is_word c = true → Ascii.eqb c Text.space = false.
Proof.
  intros Hw. destruct (Ascii.eqb c Text.space) eqn:E; [|done].
  apply Ascii.eqb_eq in E as ->. by vm_compute in Hw.
Qed.

Lemma sub_not_word_space_word w :
  Forall (fun c => Text.is_word c = true) w → Re.sub_not_word_space w = w.
Proof.
  unfold Re.sub_not_word_space.
  induction 1 as [|c w Hc _ IH]; [done|]. simpl. by rewrite Hc, IH.
Qed.

Lemma sub_spaces_word w :
  Forall (fun c => Text.is_word c = true) w → Re.sub_spaces w = w.
Proof.
  induction 1 as [|c w Hc Hw IH]; [done|].
  destruct w as [|d w]; [done|]. rewrite sub_spaces_cons.
  by rewrite (word_not_space c Hc), IH.
Qed.

Lemma lstrip_word w :
  Forall (fun c => Text.is_word c = true) w → Text.lstrip w = w.
Proof.
  destruct 1 as [|c w Hc _]; [done|]. simpl.
  destruct (lower_char_facts c) as (_ & _ & _ & _ & Hs). by rewrite (Hs Hc).
Qed.

Lemma strip_word w :
  Forall (fun c => Text.is_word c = true) w → Text.strip w = w.
Proof.
  intros Hw. unfold Text.strip. rewrite (lstrip_word w Hw).
  rewrite lstrip_word; [by rewrite rev_involutive|].
  by apply Forall_rev_iff.
Qed.

Lemma split_word w :
  Forall (fun c => Text.is_word c = true) w → Text.split Text.space w = [w].
Proof.
  induction 1 as [|c w Hc _ IH]; [done|]. simpl.
  by rewrite (word_not_space c Hc), IH.
Qed.

Lemma keywords_one_word query :
  one_word (list_ascii_of_string query) →
  keywords query = [list_ascii_of_string query].
Proof.
  intros [_ Hw]. unfold keywords.
  by rewrite sub_not_word_space_word, sub_spaces_word, strip_word, split_word.
Qed.

Lemma one_word_occurs w : one_word w → occurs_whole_word w w.
Proof.
  intros [Hne Hw]. exists [], w, []. rewrite !app_nil_r. simpl.
  split; [done|]. split; [done|].
  destruct w as [|c w _] using rev_ind; [done|].
  apply Forall_app in Hw as [Hw Hc]. apply Forall_cons in Hc as [Hc _].
  rewrite last_snoc. split.
  - destruct w as [|d w]; cbn [app head]; unfold Re.boundary, Re.word_at;
      [by rewrite Hc|].
    apply Forall_cons in Hw as [Hd _]. by rewrite Hd.
  - unfold Re.boundary, Re.word_at. by rewrite Hc.
Qed.

Lemma find_run (st : state) (query : string) :
  find query st
  = (Return (sorted _basic_sorting_key tuple_ltb
               (filter (keyword_hit (keywords query)) (tasks (self st)))),
     st).
Proof.
  unfold find. run. do 3 f_equal.
  apply List_filter_prop. intros t. apply found_keyword_hit.
Qed.

(** X24. A query that is one word is its own single keyword, and [find]
    then returns exactly the records of the collection in whose name or
    description that word occurs as a whole word; a record whose name or
    description is the word itself is always among them. *)
Theorem find_one_word_query (st : state) (query : string) :
  one_word (list_ascii_of_string query) →
  keywords query = [list_ascii_of_string query]
  ∧ ∃ result,
      find query st = (Return result, st)
      ∧ (∀ t, t ∈ result ↔
           t ∈ tasks (self st)
           ∧ (occurs_whole_word (list_ascii_of_string query)
                (list_ascii_of_string (name t))
              ∨ occurs_whole_word (list_ascii_of_string query)
                  (list_ascii_of_string (description t))))
      ∧ (∀ t, t ∈ tasks (self st) →
           name t = query ∨ description t = query → t ∈ result).
Proof.
  intros Hw. pose proof (keywords_one_word query Hw) as Hk.
  split; [done|]. eexists. split; [apply find_run|].
  assert (∀ t, t ∈ sorted _basic_sorting_key tuple_ltb
                 (filter (keyword_hit (keywords query)) (tasks (self st)))
             ↔ t ∈ tasks (self st)
               ∧ (occurs_whole_word (list_ascii_of_string query)
                    (list_ascii_of_string (name t))
                  ∨ occurs_whole_word (list_ascii_of_string query)
                      (list_ascii_of_string (description t)))) as Hiff.
  { intros t. rewrite sorted_perm, list_elem_of_filter, Hk.
    unfold keyword_hit. split.
    - intros [(kw & Hin & H) ?]. apply list_elem_of_singleton in Hin as ->.
      done.
    - intros [? H]. split; [|done]. eexists. split; [|exact H].
      by apply list_elem_of_singleton. }
  split; [exact Hiff|].
  intros t Hin Hname. apply Hiff. split; [done|].
  destruct Hname as [->| ->]; [left|right]; by apply one_word_occurs.
Qed.

Lemma find_one_word_query_witness :
  let t1 := sample_task "a1" "report" "quarterly figures" (Date 2024 12 21) high in
  let st := store [t1] in
  keywords "report" = [list_ascii_of_string "report"]
  ∧ ∃ result,
      find "report" st = (Return result, st)
      ∧ (∀ t, t ∈ result ↔
           t ∈ tasks (self st)
           ∧ (occurs_whole_word (list_ascii_of_string "report")
                (list_ascii_of_string (name t))
              ∨ occurs_whole_word (list_ascii_of_string "report")
                  (list_ascii_of_string (description t))))
      ∧ (∀ t, t ∈ tasks (self st) →
           name t = "report"%string ∨ description t = "report"%string →
           t ∈ result).
Proof.
  intros t1 st. apply (find_one_word_query st "report").
  split; [discriminate|]. repeat constructor.
Defined.
